(** * nagare.sessions: the in-memory sessions manager and its LRU dictionary

    A shallow embedding of [nagare/sessions/lru_dict.py] and
    [nagare/sessions/memory_sessions.py].

    - Python's [collections.OrderedDict] is an association list in
      insertion order: the head is the oldest entry, the last element the
      newest one.
    - A method that mutates [self] is a function from the object to a
      result and the object afterwards; a raised exception is the [Raise]
      result, and the object is returned as the exception left it.
    - Python integers are unbounded: [Z].
    - [ThreadSafeLRUDict] runs every method of [LRUDict] under one
      reentrant lock: module [thread_safe] models the lock and shows that
      a call that can take the lock is the call of [LRUDict]. The sessions
      manager is run sequentially, on [LRUDict]. *)

From Stdlib Require Import ZArith Lia.
From stdpp Require Import base decidable option list numbers strings.

(** ** Exceptions *)

Inductive exn : Type :=
| KeyError
| ExpirationError.

Inductive result (A : Type) : Type :=
| Ok (a : A)
| Raise (e : exn).

Arguments Ok {A} a.
Arguments Raise {A} e.

(** ** [collections.OrderedDict] *)

Module OrderedDict.
Section ordered_dict.
Context {K V : Type} `{EqDecision K}.

(** [d[k]] as a lookup: [None] stands for [KeyError]. *)
Fixpoint get (k : K) (d : list (K * V)) : option V :=
  match d with
  | [] => None
  | (k', v') :: d' => if decide (k = k') then Some v' else get k d'
  end.

(** [k in d] *)
Definition contains (k : K) (d : list (K * V)) : bool :=
  match get k d with
  | Some _ => true
  | None => false
  end.

(** The dictionary without the entry of key [k]; the other entries keep
    their order. *)
Fixpoint remove (k : K) (d : list (K * V)) : list (K * V) :=
  match d with
  | [] => []
  | (k', v') :: d' =>
      if decide (k = k') then remove k d' else (k', v') :: remove k d'
  end.

(** [d.pop(k)]: [None] stands for [KeyError]. *)
Definition pop (k : K) (d : list (K * V)) : option (V * list (K * V)) :=
  match get k d with
  | Some v => Some (v, remove k d)
  | None => None
  end.

(** [d.pop(k, None)]: never raises; Python's [None] default is [None]. *)
Definition pop_default (k : K) (d : list (K * V))
  : option V * list (K * V) :=
  match pop k d with
  | Some (v, d') => (Some v, d')
  | None => (None, d)
  end.

(** [d[k] = v]: an existing key keeps its place and gets the new value, a
    new key goes to the end. *)
Fixpoint setitem (k : K) (v : V) (d : list (K * V)) : list (K * V) :=
  match d with
  | [] => [(k, v)]
  | (k', v') :: d' =>
      if decide (k = k') then (k, v) :: d' else (k', v') :: setitem k v d'
  end.

(** [d.popitem(False)]: the first entry, in FIFO order; [None] stands for
    the [KeyError] of an empty dictionary. *)
Definition popitem_first (d : list (K * V))
  : option ((K * V) * list (K * V)) :=
  match d with
  | [] => None
  | kv :: d' => Some (kv, d')
  end.

(** [del d[k]]: [None] stands for [KeyError]. *)
Definition delitem (k : K) (d : list (K * V)) : option (list (K * V)) :=
  match get k d with
  | Some _ => Some (remove k d)
  | None => None
  end.

(** [len(d)] *)
Definition len (d : list (K * V)) : Z := Z.of_nat (length d).

(** [list(d.items())] *)
Definition items (d : list (K * V)) : list (K * V) := d.

(** [d.keys()] *)
Definition keys (d : list (K * V)) : list K := d.*1.

(** The object stored under [k] mutated in place by [f]: the entry keeps
    its position. This is what a write through an alias of [d[k]] does to
    the dictionary. *)
Fixpoint mutate (k : K) (f : V → V) (d : list (K * V)) : list (K * V) :=
  match d with
  | [] => []
  | (k', v') :: d' =>
      if decide (k = k') then (k', f v') :: d' else (k', v') :: mutate k f d'
  end.
End ordered_dict.
End OrderedDict.

(** ** [nagare/sessions/lru_dict.py] *)

Module lru_dict.

Record LRUDict (K V : Type) : Type := mkLRUDict {
  size : Z;                 (* self.size: maximum number of keys *)
  dict : list (K * V)       (* self.dict: the OrderedDict *)
}.
Arguments mkLRUDict {K V} size dict.
Arguments size {K V} _.
Arguments dict {K V} _.

Section lru_dict.
Context {K V : Type} `{EqDecision K}.

(** [LRUDict.__init__] *)
Definition init (sz : Z) : LRUDict K V := mkLRUDict sz [].

(** [LRUDict.__contains__] *)
Definition contains (k : K) (self : LRUDict K V)
  : result bool * LRUDict K V :=
  (Ok (OrderedDict.contains k (dict self)), self).

(** [LRUDict.__getitem__] *)
Definition getitem (k : K) (self : LRUDict K V)
  : result V * LRUDict K V :=
  match OrderedDict.pop k (dict self) with
  | None => (Raise KeyError, self)
  | Some (v, d) =>
      (Ok v, mkLRUDict (size self) (OrderedDict.setitem k v d))
  end.

(** [LRUDict.__setitem__] *)
Definition setitem (k : K) (v : V) (self : LRUDict K V)
  : result unit * LRUDict K V :=
  let d1 := snd (OrderedDict.pop_default k (dict self)) in
  let d2 := OrderedDict.setitem k v d1 in
  if (OrderedDict.len d2 >? size self)%Z then
    match OrderedDict.popitem_first d2 with
    | Some (_, d3) => (Ok (), mkLRUDict (size self) d3)
    | None => (Raise KeyError, mkLRUDict (size self) d2)
    end
  else (Ok (), mkLRUDict (size self) d2).

(** [LRUDict.__delitem__] *)
Definition delitem (k : K) (self : LRUDict K V)
  : result unit * LRUDict K V :=
  match OrderedDict.delitem k (dict self) with
  | None => (Raise KeyError, self)
  | Some d => (Ok (), mkLRUDict (size self) d)
  end.

(** [LRUDict.items] *)
Definition items (self : LRUDict K V)
  : result (list (K * V)) * LRUDict K V :=
  (Ok (OrderedDict.items (dict self)), self).

(** The four operations of the cache, as a caller issues them. *)
Inductive op : Type :=
| OpSet (k : K) (v : V)
| OpGet (k : K)
| OpDelete (k : K)
| OpContains (k : K).

(** The cache after one operation, whether it returned or raised. *)
Definition step (self : LRUDict K V) (o : op) : LRUDict K V :=
  match o with
  | OpSet k v => snd (setitem k v self)
  | OpGet k => snd (getitem k self)
  | OpDelete k => snd (delitem k self)
  | OpContains k => snd (contains k self)
  end.

(** The caches seen after each operation of a sequence, in order. *)
Fixpoint trace (self : LRUDict K V) (os : list op) : list (LRUDict K V) :=
  match os with
  | [] => []
  | o :: os' => step self o :: trace (step self o) os'
  end.

(** The cache after a whole sequence. *)
Definition run (self : LRUDict K V) (os : list op) : LRUDict K V :=
  foldl step self os.

(** Number of entries. *)
Definition length_of (self : LRUDict K V) : Z := OrderedDict.len (dict self).

(** The invariant of a cache of positive capacity: it holds no more entries
    than [size] allows. *)
Definition bounded (self : LRUDict K V) : Prop :=
  (0 < size self)%Z ∧ (length_of self ≤ size self)%Z.
End lru_dict.
End lru_dict.

(** ** [ThreadSafeLRUDict] and its reentrant lock *)

Module thread_safe.
Import lru_dict.

(** [threading.RLock]: the thread that owns the lock, if any, and the
    number of times that thread has acquired it. *)
Record RLock : Type := mkRLock {
  owner : option nat;       (* self._owner *)
  count : Z                 (* self._count *)
}.

(** [threading.RLock()] *)
Definition new_lock : RLock := mkRLock None 0.

(** [lock.acquire()] called by thread [me]: the owner acquires once more,
    a free lock is taken; [None] says that the call has to wait until
    another thread releases the lock. *)
Definition acquire (me : nat) (l : RLock) : option RLock :=
  match owner l with
  | Some t => if decide (t = me) then Some (mkRLock (Some me) (count l + 1))
              else None
  | None => Some (mkRLock (Some me) 1)
  end.

(** [lock.release()] called by thread [me]: [None] stands for the
    [RuntimeError] of releasing a lock that the thread does not own. *)
Definition release (me : nat) (l : RLock) : option RLock :=
  if decide (owner l = Some me) then
    let n := (count l - 1)%Z in
    if decide (n = 0%Z) then Some (mkRLock None n)
    else Some (mkRLock (Some me) n)
  else None.

(** The lock states that [acquire] and [release] produce: a free lock has
    count 0, an owned one a positive count. *)
Definition consistent (l : RLock) : Prop :=
  match owner l with
  | None => count l = 0%Z
  | Some _ => (0 < count l)%Z
  end.

Record ThreadSafeLRUDict (K V : Type) : Type := mkThreadSafeLRUDict {
  base : LRUDict K V;       (* the attributes inherited from LRUDict *)
  lock : RLock              (* self.lock *)
}.
Arguments mkThreadSafeLRUDict {K V} base lock.
Arguments base {K V} _.
Arguments lock {K V} _.

(** How a method call of a thread ends: it waits for the lock, it fails to
    release it, or it finishes with a result or an exception, leaving the
    object in a new state. *)
Inductive outcome (A S : Type) : Type :=
| Waits
| ReleaseFails
| Finishes (r : result A) (s : S).
Arguments Waits {A S}.
Arguments ReleaseFails {A S}.
Arguments Finishes {A S} r s.

Section thread_safe.
Context {K V : Type} `{EqDecision K}.

(** [with self.lock: return super().method(...)]: the lock is acquired,
    the method of [LRUDict] runs, and the lock is released, whether the
    method returned or raised. *)
Definition with_lock {A : Type} (me : nat)
    (body : LRUDict K V → result A * LRUDict K V)
    (self : ThreadSafeLRUDict K V)
  : outcome A (ThreadSafeLRUDict K V) :=
  match acquire me (lock self) with
  | None => Waits
  | Some l1 =>
      let '(r, b) := body (base self) in
      match release me l1 with
      | Some l2 => Finishes r (mkThreadSafeLRUDict b l2)
      | None => ReleaseFails
      end
  end.

(** [ThreadSafeLRUDict.__init__] *)
Definition init (sz : Z) : ThreadSafeLRUDict K V :=
  mkThreadSafeLRUDict (lru_dict.init sz) new_lock.

(** [ThreadSafeLRUDict.__contains__] *)
Definition contains (me : nat) (k : K) (self : ThreadSafeLRUDict K V)
  : outcome bool (ThreadSafeLRUDict K V) :=
  with_lock me (lru_dict.contains k) self.

(** [ThreadSafeLRUDict.__getitem__] *)
Definition getitem (me : nat) (k : K) (self : ThreadSafeLRUDict K V)
  : outcome V (ThreadSafeLRUDict K V) :=
  with_lock me (lru_dict.getitem k) self.

(** [ThreadSafeLRUDict.__setitem__] *)
Definition setitem (me : nat) (k : K) (v : V) (self : ThreadSafeLRUDict K V)
  : outcome unit (ThreadSafeLRUDict K V) :=
  with_lock me (lru_dict.setitem k v) self.

(** [ThreadSafeLRUDict.__delitem__] *)
Definition delitem (me : nat) (k : K) (self : ThreadSafeLRUDict K V)
  : outcome unit (ThreadSafeLRUDict K V) :=
  with_lock me (lru_dict.delitem k) self.

(** [items] is inherited from [LRUDict] as it is: it takes no lock. *)
Definition items (self : ThreadSafeLRUDict K V)
  : outcome (list (K * V)) (ThreadSafeLRUDict K V) :=
  let '(r, b) := lru_dict.items (base self) in
  Finishes r (mkThreadSafeLRUDict b (lock self)).
End thread_safe.
End thread_safe.

(** ** [nagare/sessions/memory_sessions.py] *)

Module memory_sessions.

Definition DEFAULT_NB_SESSIONS : Z := 10000.
Definition DEFAULT_NB_STATES : Z := 20.

(** Modelled from the spec: the lock-factory collaborator
    [self.local.worker], whose code is not part of this repository. A
    lock is an opaque handle; the factory hands out a handle it never
    handed out before, which is modelled by numbering the handles in the
    order of the calls to [create_lock]. *)
Inductive Lock : Type := LockHandle (n : nat).

Record Worker : Type := mkWorker {
  locks_created : nat       (* number of calls to create_lock so far *)
}.

Definition create_lock (w : Worker) : Lock * Worker :=
  (LockHandle (locks_created w), mkWorker (S (locks_created w))).

(** A session is the five-element Python list
    [[last_state_id, lock, secure_token, session_data, states]]. *)
Record Session (StateId Token SData StData : Type) : Type := mkSession {
  last_state_id : Z;                               (* session[0] *)
  lock : Lock;                                     (* session[1] *)
  secure_token : Token;                            (* session[2] *)
  session_data : option SData;                     (* session[3], None at creation *)
  states : lru_dict.LRUDict StateId StData         (* session[4] *)
}.
Arguments mkSession {StateId Token SData StData} _ _ _ _ _.
Arguments last_state_id {StateId Token SData StData} _.
Arguments lock {StateId Token SData StData} _.
Arguments secure_token {StateId Token SData StData} _.
Arguments session_data {StateId Token SData StData} _.
Arguments states {StateId Token SData StData} _.

Record Sessions (SessionId StateId Token SData StData : Type) : Type :=
  mkSessions {
    local : Worker;                                (* self.local.worker *)
    nb_states : Z;                                 (* self.nb_states *)
    _sessions :                                    (* self._sessions *)
      lru_dict.LRUDict SessionId (Session StateId Token SData StData)
  }.
Arguments mkSessions {SessionId StateId Token SData StData} _ _ _.
Arguments local {SessionId StateId Token SData StData} _.
Arguments nb_states {SessionId StateId Token SData StData} _.
Arguments _sessions {SessionId StateId Token SData StData} _.

Section sessions.
Context {SessionId StateId Token SData StData : Type}.
Context `{EqDecision SessionId} `{EqDecision StateId}.

Abbreviation Session := (Session StateId Token SData StData).
Abbreviation Sessions := (Sessions SessionId StateId Token SData StData).

(** Assignments to the slots of the session list. *)
Definition set_last_state_id (n : Z) (s : Session) : Session :=
  mkSession n (lock s) (secure_token s) (session_data s) (states s).
Definition set_secure_token (t : Token) (s : Session) : Session :=
  mkSession (last_state_id s) (lock s) t (session_data s) (states s).
Definition set_session_data (d : option SData) (s : Session) : Session :=
  mkSession (last_state_id s) (lock s) (secure_token s) d (states s).
Definition set_states (st : lru_dict.LRUDict StateId StData) (s : Session)
  : Session :=
  mkSession (last_state_id s) (lock s) (secure_token s) (session_data s) st.

(** The manager with its [_sessions] dictionary in a new state. *)
Definition with_sessions
    (ss : lru_dict.LRUDict SessionId Session) (self : Sessions) : Sessions :=
  mkSessions (local self) (nb_states self) ss.

(** A session list lives in exactly one slot of [self._sessions.dict] and
    no other reference to it outlives a method call, so a write through
    the local alias [session] is a write to that slot, in place. *)
Definition write_session (session_id : SessionId) (s : Session)
    (ss : lru_dict.LRUDict SessionId Session)
  : lru_dict.LRUDict SessionId Session :=
  lru_dict.mkLRUDict (lru_dict.size ss)
    (OrderedDict.mutate session_id (λ _, s) (lru_dict.dict ss)).

(** [Sessions.__init__] (the services and the configuration of the parent
    class are not modelled). *)
Definition init (w : Worker) (nb_sessions nb_states : Z) : Sessions :=
  mkSessions w nb_states (lru_dict.init nb_sessions).

(** [Sessions.check_session_id] *)
Definition check_session_id (session_id : SessionId) (self : Sessions)
  : result bool * Sessions :=
  let '(r, ss) := lru_dict.contains session_id (_sessions self) in
  (r, with_sessions ss self).

(** [Sessions.get_lock] *)
Definition get_lock (session_id : SessionId) (self : Sessions)
  : result Lock * Sessions :=
  match lru_dict.getitem session_id (_sessions self) with
  | (Ok session, ss) => (Ok (lock session), with_sessions ss self)
  | (Raise KeyError, ss) => (Raise ExpirationError, with_sessions ss self)
  | (Raise e, ss) => (Raise e, with_sessions ss self)
  end.

(** [Sessions._create] *)
Definition _create (session_id : SessionId) (secure_token : Token)
    (self : Sessions)
  : result (SessionId * Z * Token * Lock) * Sessions :=
  let '(lock, w) := create_lock (local self) in
  let session :=
    mkSession 0 lock secure_token None (lru_dict.init (nb_states self)) in
  match lru_dict.setitem session_id session (_sessions self) with
  | (Ok _, ss) =>
      (Ok (session_id, 0%Z, secure_token, lock),
       mkSessions w (nb_states self) ss)
  | (Raise e, ss) => (Raise e, mkSessions w (nb_states self) ss)
  end.

(** [Sessions.delete] *)
Definition delete (session_id : SessionId) (self : Sessions)
  : result unit * Sessions :=
  let '(r, ss) := lru_dict.delitem session_id (_sessions self) in
  (r, with_sessions ss self).

(** [Sessions._fetch] *)
Definition _fetch (session_id : SessionId) (state_id : StateId)
    (self : Sessions)
  : result (Z * Token * option SData * StData) * Sessions :=
  match lru_dict.getitem session_id (_sessions self) with
  | (Ok session, ss) =>
      let '(r, st) := lru_dict.getitem state_id (states session) in
      let self' :=
        with_sessions (write_session session_id (set_states st session) ss)
          self in
      match r with
      | Ok state_data =>
          (Ok (last_state_id session, secure_token session,
               session_data session, state_data), self')
      | Raise KeyError => (Raise ExpirationError, self')
      | Raise e => (Raise e, self')
      end
  | (Raise KeyError, ss) => (Raise ExpirationError, with_sessions ss self)
  | (Raise e, ss) => (Raise e, with_sessions ss self)
  end.

(** [Sessions._store] *)
Definition _store (session_id : SessionId) (state_id : StateId)
    (secure_token : Token) (use_same_state : bool)
    (session_data : option SData) (state_data : StData) (self : Sessions)
  : result unit * Sessions :=
  match lru_dict.getitem session_id (_sessions self) with
  | (Ok session, ss) =>
      let session :=
        if negb use_same_state
        then set_last_state_id (last_state_id session + 1) session
        else session in
      let session := set_secure_token secure_token session in
      let session := set_session_data session_data session in
      let '(r, st) := lru_dict.setitem state_id state_data (states session) in
      let session := set_states st session in
      (r, with_sessions (write_session session_id session ss) self)
  | (Raise e, ss) => (Raise e, with_sessions ss self)
  end.

(** The session stored under an id, if any, without touching the order. *)
Definition session_of (session_id : SessionId) (self : Sessions)
  : option Session :=
  OrderedDict.get session_id (lru_dict.dict (_sessions self)).

(** The calls a request handler makes on the manager. *)
Inductive call : Type :=
| CallCheckSessionId (session_id : SessionId)
| CallGetLock (session_id : SessionId)
| CallCreate (session_id : SessionId) (secure_token : Token)
| CallDelete (session_id : SessionId)
| CallFetch (session_id : SessionId) (state_id : StateId)
| CallStore (session_id : SessionId) (state_id : StateId)
    (secure_token : Token) (use_same_state : bool)
    (session_data : option SData) (state_data : StData).

(** The manager after one call, whether it returned or raised. *)
Definition step (self : Sessions) (c : call) : Sessions :=
  match c with
  | CallCheckSessionId session_id => snd (check_session_id session_id self)
  | CallGetLock session_id => snd (get_lock session_id self)
  | CallCreate session_id secure_token =>
      snd (_create session_id secure_token self)
  | CallDelete session_id => snd (delete session_id self)
  | CallFetch session_id state_id => snd (_fetch session_id state_id self)
  | CallStore session_id state_id secure_token use_same_state
      session_data state_data =>
      snd (_store session_id state_id secure_token use_same_state
             session_data state_data self)
  end.

(** The manager after a sequence of calls. *)
Definition run (self : Sessions) (cs : list call) : Sessions :=
  foldl step self cs.

(** The invariant of a manager configured with positive [nb_sessions] and
    [nb_states]: the outer cache respects its bound, and so does the inner
    cache of every session, whose capacity is [nb_states]. *)
Definition well_formed (self : Sessions) : Prop :=
  (0 < nb_states self)%Z ∧
  lru_dict.bounded (_sessions self) ∧
  Forall
    (λ entry : SessionId * Session,
       lru_dict.size (states entry.2) = nb_states self ∧
       lru_dict.bounded (states entry.2))
    (lru_dict.dict (_sessions self)).

(** The identifiers of a manager are distinct: no session identifier
    occurs twice in the outer cache, and no state identifier twice in the
    cache of a session. *)
Definition distinct_ids (self : Sessions) : Prop :=
  NoDup (OrderedDict.keys (lru_dict.dict (_sessions self))) ∧
  Forall
    (λ entry : SessionId * Session,
       NoDup (OrderedDict.keys (lru_dict.dict (states entry.2))))
    (lru_dict.dict (_sessions self)).
End sessions.
End memory_sessions.

(** ** Concrete caches and stores, used to run the model *)

Module samples.
Import lru_dict memory_sessions.
Local Open Scope string_scope.
Local Open Scope Z_scope.

(** A full cache of capacity 2: ["a"] is the least recently used key. *)
Definition full_cache : LRUDict string Z :=
  mkLRUDict 2 [("a", 1); ("b", 2)].

(** A session with two states, and a fresh one. *)
Definition session_1 : Session Z string string string :=
  mkSession 3 (LockHandle 0) "token-1" (Some "data-1")
    (mkLRUDict 2 [(0, "state-0"); (1, "state-1")]).

Definition session_2 : Session Z string string string :=
  mkSession 0 (LockHandle 1) "token-2" None (lru_dict.init 2).

(** A manager with [nb_sessions = 2] and [nb_states = 2] holding the two
    sessions, session 1 being the least recently used. *)
Definition store : Sessions Z Z string string string :=
  mkSessions (mkWorker 2) 2 (mkLRUDict 2 [(1, session_1); (2, session_2)]).

(** An empty manager with [nb_sessions = 2] and [nb_states = 2]. *)
Definition empty_store : Sessions Z Z string string string :=
  memory_sessions.init (mkWorker 0) 2 2.
End samples.

(** * Facts about the ordered dictionary *)

Section ordered_dict_facts.
Context {K V : Type} `{EqDecision K}.
Implicit Types (k : K) (v : V) (d : list (K * V)).

Lemma get_None_keys k d :
  OrderedDict.get k d = None ↔ k ∉ OrderedDict.keys d.
Proof.
  unfold OrderedDict.keys. induction d as [|[k' v'] d IH]; simpl.
  - split; [intros _; apply not_elem_of_nil | done].
  - rewrite not_elem_of_cons. destruct (decide (k = k')) as [->|Hne].
    + split; [done | intros [? _]; done].
    + rewrite IH. tauto.
Qed.

Lemma get_Some_keys k d :
  is_Some (OrderedDict.get k d) ↔ k ∈ OrderedDict.keys d.
Proof.
  rewrite <- not_eq_None_Some, get_None_keys.
  destruct (decide (k ∈ OrderedDict.keys d)); tauto.
Qed.

Lemma contains_keys k d :
  OrderedDict.contains k d = bool_decide (k ∈ OrderedDict.keys d).
Proof.
  unfold OrderedDict.contains.
  destruct (OrderedDict.get k d) as [v|] eqn:E.
  - symmetry. apply bool_decide_eq_true. apply get_Some_keys. by rewrite E.
  - symmetry. apply bool_decide_eq_false. by apply get_None_keys.
Qed.

Lemma get_app k d1 d2 :
  OrderedDict.get k (d1 ++ d2) =
  match OrderedDict.get k d1 with
  | Some v => Some v
  | None => OrderedDict.get k d2
  end.
Proof.
  induction d1 as [|[k' v'] d1 IH]; simpl; [done|].
  by destruct (decide (k = k')).
Qed.

Lemma get_remove_eq k d : OrderedDict.get k (OrderedDict.remove k d) = None.
Proof.
  induction d as [|[k' v'] d IH]; simpl; [done|].
  destruct (decide (k = k')); simpl; [done|].
  by destruct (decide (k = k')).
Qed.

Lemma get_remove_ne k k' d :
  k ≠ k' → OrderedDict.get k' (OrderedDict.remove k d) = OrderedDict.get k' d.
Proof.
  intros Hne. induction d as [|[k1 v1] d IH]; simpl; [done|].
  destruct (decide (k = k1)) as [->|]; simpl.
  - destruct (decide (k' = k1)); [congruence | done].
  - by rewrite IH.
Qed.

Lemma remove_fresh k d :
  OrderedDict.get k d = None → OrderedDict.remove k d = d.
Proof.
  induction d as [|[k' v'] d IH]; simpl; [done|].
  destruct (decide (k = k')); [done|]. intros E. by rewrite IH.
Qed.

Lemma remove_idemp k d :
  OrderedDict.remove k (OrderedDict.remove k d) = OrderedDict.remove k d.
Proof. apply remove_fresh, get_remove_eq. Qed.

Lemma remove_app k d1 d2 :
  OrderedDict.remove k (d1 ++ d2) =
  OrderedDict.remove k d1 ++ OrderedDict.remove k d2.
Proof.
  induction d1 as [|[k' v'] d1 IH]; simpl; [done|].
  destruct (decide (k = k')); simpl; by rewrite IH.
Qed.

Lemma remove_length_le k d :
  length (OrderedDict.remove k d) ≤ length d.
Proof.
  induction d as [|[k' v'] d IH]; simpl; [done|].
  destruct (decide (k = k')); simpl; lia.
Qed.

Lemma remove_length_lt k v d :
  OrderedDict.get k d = Some v → length (OrderedDict.remove k d) < length d.
Proof.
  induction d as [|[k' v'] d IH]; simpl; [done|].
  destruct (decide (k = k')); simpl.
  - intros _. pose proof (remove_length_le k d). lia.
  - intros E. specialize (IH E). lia.
Qed.

Lemma remove_sublist k d : OrderedDict.remove k d `sublist_of` d.
Proof.
  induction d as [|[k' v'] d IH]; simpl; [done|].
  destruct (decide (k = k')); by constructor.
Qed.

Lemma keys_remove k k' d :
  k' ∈ OrderedDict.keys (OrderedDict.remove k d) ↔
  k' ≠ k ∧ k' ∈ OrderedDict.keys d.
Proof.
  rewrite <- !get_Some_keys. destruct (decide (k = k')) as [->|Hne].
  - rewrite get_remove_eq. split; [intros Hs; destruct (is_Some_None Hs) | intros [? _]; done].
  - rewrite get_remove_ne by done. split; [intros Hs; split; [congruence | done] | intros [_ Hs]; done].
Qed.

Lemma remove_NoDup k d :
  NoDup (OrderedDict.keys d) → NoDup (OrderedDict.keys (OrderedDict.remove k d)).
Proof.
  unfold OrderedDict.keys. intros Hd.
  eapply sublist_NoDup; [exact Hd|]. apply fmap_sublist, remove_sublist.
Qed.

(** Assigning to a key that is not in the dictionary appends the entry. *)
Lemma setitem_fresh k v d :
  OrderedDict.get k d = None → OrderedDict.setitem k v d = d ++ [(k, v)].
Proof.
  induction d as [|[k' v'] d IH]; simpl; [done|].
  destruct (decide (k = k')); [done|]. intros E. by rewrite IH.
Qed.

(** [d.pop(k, None)] leaves the dictionary without [k], present or not. *)
Lemma pop_default_remove k d :
  snd (OrderedDict.pop_default k d) = OrderedDict.remove k d.
Proof.
  unfold OrderedDict.pop_default, OrderedDict.pop.
  destruct (OrderedDict.get k d) eqn:E; simpl; [done|].
  symmetry. by apply remove_fresh.
Qed.

(** A write through an alias of the newest entry. *)
Lemma mutate_last k (f : V → V) v d :
  OrderedDict.get k d = None →
  OrderedDict.mutate k f (d ++ [(k, v)]) = d ++ [(k, f v)].
Proof.
  induction d as [|[k' v'] d IH]; simpl.
  - intros _. by destruct (decide (k = k)).
  - destruct (decide (k = k')); [done|]. intros E. by rewrite IH.
Qed.

(** Moving an entry to the end, with a new value or not, keeps the keys of
    a dictionary: the same keys, each once. *)
Lemma keys_promote_perm k v v' d :
  NoDup (OrderedDict.keys d) →
  OrderedDict.get k d = Some v →
  OrderedDict.keys (OrderedDict.remove k d ++ [(k, v')]) ≡ₚ
  OrderedDict.keys d.
Proof.
  unfold OrderedDict.keys. induction d as [|[k1 v1] d IH]; simpl; [done|].
  intros [Hk1 Hd]%NoDup_cons Hget.
  destruct (decide (k = k1)) as [->|Hne]; simpl.
  - rewrite remove_fresh by by apply get_None_keys.
    rewrite fmap_app. simpl. by rewrite <- Permutation_cons_append.
  - by rewrite IH.
Qed.

Lemma keys_promote_NoDup k v d :
  NoDup (OrderedDict.keys d) →
  NoDup (OrderedDict.keys (OrderedDict.remove k d ++ [(k, v)])).
Proof.
  intros Hd. unfold OrderedDict.keys. rewrite fmap_app. simpl.
  apply NoDup_app. split_and!.
  - by apply remove_NoDup.
  - intros k' Hin ->%list_elem_of_singleton.
    by apply keys_remove in Hin as [? _].
  - apply NoDup_singleton.
Qed.
Lemma remove_Forall (P : K * V → Prop) k d :
  Forall P d → Forall P (OrderedDict.remove k d).
Proof.
  induction 1 as [|[k' v'] d HP _ IH]; simpl; [constructor|].
  destruct (decide (k = k')); [done | by constructor].
Qed.

Lemma get_Forall (P : K * V → Prop) k v d :
  Forall P d → OrderedDict.get k d = Some v → P (k, v).
Proof.
  induction 1 as [|[k' v'] d HP _ IH]; simpl; [done|].
  destruct (decide (k = k')) as [->|]; [|done]. by intros [= <-].
Qed.

Lemma tail_Forall (P : K * V → Prop) d : Forall P d → Forall P (tail d).
Proof. destruct 1; [constructor | done]. Qed.
End ordered_dict_facts.

(** * Facts about the LRU dictionary *)

Section lru_dict_facts.
Context {K V : Type} `{EqDecision K}.
Implicit Types (k : K) (v : V) (c : lru_dict.LRUDict K V).

(** [__getitem__] raises [KeyError] on a missing key and leaves the cache
    alone; on a present key it returns the value and moves the entry to
    the end. *)
Lemma getitem_spec k c :
  lru_dict.getitem k c =
  match OrderedDict.get k (lru_dict.dict c) with
  | None => (Raise KeyError, c)
  | Some v =>
      (Ok v,
       lru_dict.mkLRUDict (lru_dict.size c)
         (OrderedDict.remove k (lru_dict.dict c) ++ [(k, v)]))
  end.
Proof.
  unfold lru_dict.getitem, OrderedDict.pop.
  destruct (OrderedDict.get k (lru_dict.dict c)) as [v|]; [|done].
  by rewrite setitem_fresh by apply get_remove_eq.
Qed.

(** [__setitem__] never raises: the entry goes to the end, and the head is
    dropped when the dictionary got longer than [size]. *)
Lemma setitem_spec k v c :
  lru_dict.setitem k v c =
  (Ok (),
   lru_dict.mkLRUDict (lru_dict.size c)
     (if (OrderedDict.len (OrderedDict.remove k (lru_dict.dict c) ++ [(k, v)])
          >? lru_dict.size c)%Z
      then tail (OrderedDict.remove k (lru_dict.dict c) ++ [(k, v)])
      else OrderedDict.remove k (lru_dict.dict c) ++ [(k, v)])).
Proof.
  unfold lru_dict.setitem. cbv zeta. rewrite pop_default_remove.
  rewrite setitem_fresh by apply get_remove_eq.
  destruct (_ >? _)%Z; [|done].
  by destruct (OrderedDict.remove k (lru_dict.dict c)).
Qed.

Lemma delitem_spec k c :
  lru_dict.delitem k c =
  match OrderedDict.get k (lru_dict.dict c) with
  | None => (Raise KeyError, c)
  | Some _ =>
      (Ok (),
       lru_dict.mkLRUDict (lru_dict.size c)
         (OrderedDict.remove k (lru_dict.dict c)))
  end.
Proof.
  unfold lru_dict.delitem, OrderedDict.delitem.
  by destruct (OrderedDict.get k (lru_dict.dict c)).
Qed.

Lemma len_snoc (d : list (K * V)) (kv : K * V) :
  OrderedDict.len (d ++ [kv]) = (OrderedDict.len d + 1)%Z.
Proof. unfold OrderedDict.len. rewrite length_app. simpl. lia. Qed.

(** When the cache respects its bound and the bound is positive, the entry
    that [__setitem__] drops, if any, is an old one: the new entry stays
    last. *)
Lemma setitem_bounded k v c :
  (0 < lru_dict.size c)%Z →
  (lru_dict.length_of c ≤ lru_dict.size c)%Z →
  ∃ evicted rest,
    OrderedDict.remove k (lru_dict.dict c) = evicted ++ rest ∧
    length evicted ≤ 1 ∧
    (evicted = [] ↔
       (OrderedDict.len (OrderedDict.remove k (lru_dict.dict c)) <
          lru_dict.size c)%Z) ∧
    lru_dict.setitem k v c =
      (Ok (), lru_dict.mkLRUDict (lru_dict.size c) (rest ++ [(k, v)])).
Proof.
  intros Hpos Hle. rewrite setitem_spec, len_snoc.
  unfold lru_dict.length_of, OrderedDict.len in *.
  pose proof (remove_length_le k (lru_dict.dict c)) as Hrm.
  destruct (Z.gtb_spec (Z.of_nat (length (OrderedDict.remove k (lru_dict.dict c))) + 1)
              (lru_dict.size c)) as [Hgt|Hngt].
  - destruct (OrderedDict.remove k (lru_dict.dict c)) as [|kv rest] eqn:E.
    + simpl in Hgt. lia.
    + exists [kv], rest. simpl. split_and!; [done | lia | | done].
      split; [done | simpl in *; lia].
  - exists [], (OrderedDict.remove k (lru_dict.dict c)).
    split_and!; [done | simpl; lia | | done]. split; [lia | done].
Qed.

(** What [__setitem__] leaves in a cache of positive capacity that respects
    its bound: the new entry last, no other entry of the key, and the other
    entries in their order, less at most one evicted from the front. *)
Lemma setitem_recency k v c :
  (0 < lru_dict.size c)%Z →
  (lru_dict.length_of c ≤ lru_dict.size c)%Z →
  ∃ c' evicted rest,
    lru_dict.setitem k v c = (Ok (), c') ∧
    lru_dict.dict c' = rest ++ [(k, v)] ∧
    last (lru_dict.dict c') = Some (k, v) ∧
    OrderedDict.get k (lru_dict.dict c') = Some v ∧
    OrderedDict.get k rest = None ∧
    OrderedDict.remove k (lru_dict.dict c') = rest ∧
    OrderedDict.remove k (lru_dict.dict c) = evicted ++ rest ∧
    length evicted ≤ 1.
Proof.
  intros Hpos Hle.
  destruct (setitem_bounded k v c Hpos Hle)
    as (evicted & rest & Hrm & Hlen & _ & Hset).
  assert (OrderedDict.get k rest = None) as Hrest.
  { pose proof (get_remove_eq k (lru_dict.dict c)) as Hnone.
    rewrite Hrm, get_app in Hnone.
    by destruct (OrderedDict.get k evicted). }
  exists (lru_dict.mkLRUDict (lru_dict.size c) (rest ++ [(k, v)])),
    evicted, rest.
  simpl. split_and!; [done | done | apply last_snoc | | done | | done | done].
  - rewrite get_app, Hrest. simpl. by destruct (decide (k = k)).
  - rewrite remove_app, (remove_fresh _ _ Hrest). simpl.
    destruct (decide (k = k)); [|done]. by rewrite app_nil_r.
Qed.

(** Every operation keeps [size], and keeps the number of entries within
    it. *)
Lemma step_size c (o : lru_dict.op) :
  lru_dict.size (lru_dict.step c o) = lru_dict.size c.
Proof.
  destruct o as [k v|k|k|k]; simpl.
  - by rewrite setitem_spec.
  - rewrite getitem_spec. by destruct (OrderedDict.get _ _).
  - rewrite delitem_spec. by destruct (OrderedDict.get _ _).
  - done.
Qed.

Lemma step_bounded c (o : lru_dict.op) :
  (0 ≤ lru_dict.size c)%Z →
  (lru_dict.length_of c ≤ lru_dict.size c)%Z →
  (lru_dict.length_of (lru_dict.step c o) ≤ lru_dict.size c)%Z.
Proof.
  intros Hpos Hle. unfold lru_dict.length_of, OrderedDict.len in *.
  destruct o as [k v|k|k|k]; simpl.
  - rewrite setitem_spec, len_snoc. simpl.
    pose proof (remove_length_le k (lru_dict.dict c)) as Hrm.
    unfold OrderedDict.len.
    destruct (Z.gtb_spec (Z.of_nat (length (OrderedDict.remove k (lru_dict.dict c))) + 1)
                (lru_dict.size c)) as [Hgt|Hngt].
    + destruct (OrderedDict.remove k (lru_dict.dict c)) as [|kv rest];
        simpl in *; [lia|]. rewrite length_app. simpl. lia.
    + rewrite length_app. simpl. lia.
  - rewrite getitem_spec.
    destruct (OrderedDict.get k (lru_dict.dict c)) as [v|] eqn:E; simpl; [|done].
    pose proof (remove_length_lt k v (lru_dict.dict c) E).
    rewrite length_app. simpl. lia.
  - rewrite delitem_spec.
    destruct (OrderedDict.get k (lru_dict.dict c)) as [v|] eqn:E; simpl; [|done].
    pose proof (remove_length_le k (lru_dict.dict c)). lia.
  - done.
Qed.

(** The keys of the dictionary stay distinct, as the keys of a dictionary
    are. *)
Lemma step_NoDup c (o : lru_dict.op) :
  NoDup (OrderedDict.keys (lru_dict.dict c)) →
  NoDup (OrderedDict.keys (lru_dict.dict (lru_dict.step c o))).
Proof.
  intros Hd. destruct o as [k v|k|k|k]; simpl.
  - rewrite setitem_spec. simpl.
    pose proof (keys_promote_NoDup k v _ Hd) as Hnew.
    destruct (_ >? _)%Z; [|done].
    eapply sublist_NoDup; [exact Hnew|].
    apply fmap_sublist.
    destruct (OrderedDict.remove k (lru_dict.dict c) ++ [(k, v)]);
      [done | by constructor].
  - rewrite getitem_spec.
    destruct (OrderedDict.get k (lru_dict.dict c)) as [v|]; simpl; [|done].
    by apply keys_promote_NoDup.
  - rewrite delitem_spec.
    destruct (OrderedDict.get k (lru_dict.dict c)) as [v|]; simpl; [|done].
    by apply remove_NoDup.
  - done.
Qed.

Lemma run_size c (os : list lru_dict.op) :
  lru_dict.size (lru_dict.run c os) = lru_dict.size c.
Proof.
  unfold lru_dict.run. revert c.
  induction os as [|o os IH]; intros c; simpl; [done|].
  by rewrite IH, step_size.
Qed.

Lemma run_bounded c (os : list lru_dict.op) :
  (0 ≤ lru_dict.size c)%Z →
  (lru_dict.length_of c ≤ lru_dict.size c)%Z →
  (lru_dict.length_of (lru_dict.run c os) ≤ lru_dict.size c)%Z.
Proof.
  unfold lru_dict.run. revert c.
  induction os as [|o os IH]; intros c Hpos Hle; simpl; [done|].
  rewrite <- (step_size c o). apply IH; rewrite step_size; [done|].
  by apply step_bounded.
Qed.

(** ** The bound is an invariant *)

Lemma init_bounded (C : Z) :
  (0 < C)%Z → lru_dict.bounded (lru_dict.init C : lru_dict.LRUDict K V).
Proof.
  intros HC. split; simpl; [done|].
  unfold lru_dict.length_of, OrderedDict.len. simpl. lia.
Qed.

Lemma step_preserves_bounded c (o : lru_dict.op) :
  lru_dict.bounded c → lru_dict.bounded (lru_dict.step c o).
Proof.
  intros [Hpos Hle]. split; rewrite step_size; [done|].
  apply step_bounded; [lia | done].
Qed.

Lemma promote_bounded k v v' c :
  lru_dict.bounded c →
  OrderedDict.get k (lru_dict.dict c) = Some v →
  lru_dict.bounded
    (lru_dict.mkLRUDict (lru_dict.size c)
       (OrderedDict.remove k (lru_dict.dict c) ++ [(k, v')])).
Proof.
  intros [Hpos Hle] Hget. split; simpl; [done|].
  unfold lru_dict.length_of, OrderedDict.len in *. simpl.
  pose proof (remove_length_lt k v _ Hget). rewrite length_app. simpl. lia.
Qed.

Lemma remove_bounded k c :
  lru_dict.bounded c →
  lru_dict.bounded
    (lru_dict.mkLRUDict (lru_dict.size c)
       (OrderedDict.remove k (lru_dict.dict c))).
Proof.
  intros [Hpos Hle]. split; simpl; [done|].
  unfold lru_dict.length_of, OrderedDict.len in *. simpl.
  pose proof (remove_length_le k (lru_dict.dict c)). lia.
Qed.

Lemma setitem_Forall (P : K * V → Prop) k v c :
  Forall P (lru_dict.dict c) → P (k, v) →
  Forall P (lru_dict.dict (snd (lru_dict.setitem k v c))).
Proof.
  intros Hd Hkv. rewrite setitem_spec. simpl.
  assert (Forall P (OrderedDict.remove k (lru_dict.dict c) ++ [(k, v)])).
  { apply Forall_app. split; [by apply remove_Forall | by constructor]. }
  destruct (_ >? _)%Z; [by apply tail_Forall | done].
Qed.
End lru_dict_facts.

(** * The scenarios of [tests/test_lru.py], run on the model *)

Section test_lru.
Import lru_dict.
Local Open Scope string_scope.
Local Open Scope Z_scope.

Example test_no_eviction :
  lru_dict.dict <$> trace (init 3) [OpSet "a" 1; OpSet "b" 2; OpSet "c" 3] =
  [ [("a", 1)];
    [("a", 1); ("b", 2)];
    [("a", 1); ("b", 2); ("c", 3)] ].
Proof. reflexivity. Qed.

Example test_key_read :
  lru_dict.dict <$>
    trace (run (init 3) [OpSet "a" 1; OpSet "b" 2; OpSet "c" 3])
      [OpGet "a"; OpGet "c"] =
  [ [("b", 2); ("c", 3); ("a", 1)];
    [("b", 2); ("a", 1); ("c", 3)] ].
Proof. reflexivity. Qed.

Example test_key_change :
  lru_dict.dict <$>
    trace (run (init 3) [OpSet "a" 1; OpSet "b" 2; OpSet "c" 3])
      [OpSet "a" 4; OpSet "c" 5] =
  [ [("b", 2); ("c", 3); ("a", 4)];
    [("b", 2); ("a", 4); ("c", 5)] ].
Proof. reflexivity. Qed.

Example test_evictions :
  lru_dict.dict <$>
    trace (run (init 3) [OpSet "a" 1; OpSet "b" 2; OpSet "c" 3])
      [OpSet "d" 4; OpSet "b" 2; OpSet "e" 5] =
  [ [("b", 2); ("c", 3); ("d", 4)];
    [("c", 3); ("d", 4); ("b", 2)];
    [("d", 4); ("b", 2); ("e", 5)] ].
Proof. reflexivity. Qed.
End test_lru.

(** * The bounded LRU cache: eviction, capacity, recency *)

Section lru_dict_claims.
Context {K V : Type} `{EqDecision K}.
Implicit Types (k : K) (v : V) (c : lru_dict.LRUDict K V).

(** C1. In a cache of positive capacity that is full (as many entries as
    [size] allows), [set(k, v)] of a key that is not in the cache returns
    normally, with no value, and removes exactly one entry: the head of the
    order [(k0, v0)], the least recently used one. What is left is the rest
    of the old entries, in their order, followed by the new entry; the new
    entry is not the one removed ([k0 ≠ k], and [k] is found with value [v]
    afterwards), and the number of entries is what it was. *)
Theorem C1_set_evicts_least_recently_used c k v :
  (0 < lru_dict.size c)%Z →
  lru_dict.length_of c = lru_dict.size c →
  OrderedDict.contains k (lru_dict.dict c) = false →
  ∃ k0 v0 rest,
    lru_dict.dict c = (k0, v0) :: rest ∧
    lru_dict.setitem k v c =
      (Ok (), lru_dict.mkLRUDict (lru_dict.size c) (rest ++ [(k, v)])) ∧
    k0 ≠ k ∧
    OrderedDict.get k (rest ++ [(k, v)]) = Some v ∧
    length (rest ++ [(k, v)]) = length (lru_dict.dict c).
Proof.
  intros Hpos Hfull Hnew.
  unfold OrderedDict.contains in Hnew.
  destruct (OrderedDict.get k (lru_dict.dict c)) as [?|] eqn:Hget; [done|].
  rewrite setitem_spec, len_snoc, (remove_fresh _ _ Hget).
  unfold lru_dict.length_of, OrderedDict.len in *.
  destruct (lru_dict.dict c) as [|[k0 v0] rest] eqn:Hd; simpl in *; [lia|].
  exists k0, v0, rest.
  destruct (decide (k = k0)) as [->|Hne]; [done|].
  destruct (Z.gtb_spec (Z.of_nat (S (length rest)) + 1) (lru_dict.size c));
    [|lia].
  split_and!; [done | done | congruence | | rewrite length_app; simpl; lia].
  rewrite get_app, Hget. simpl. by destruct (decide (k = k)).
Qed.

(** The cache after each operation of a sequence keeps the invariant it
    started with. *)
Lemma trace_bounded c (os : list lru_dict.op) :
  (0 ≤ lru_dict.size c)%Z →
  (lru_dict.length_of c ≤ lru_dict.size c)%Z →
  Forall (λ c', (lru_dict.length_of c' ≤ lru_dict.size c)%Z)
    (lru_dict.trace c os).
Proof.
  revert c. induction os as [|o os IH]; intros c Hpos Hle; simpl.
  - constructor.
  - constructor; [by apply step_bounded|].
    rewrite <- (step_size c o).
    apply IH; rewrite step_size; [done | by apply step_bounded].
Qed.

(** C2. A cache built with a positive capacity [C] holds at most [C]
    entries after every operation of every finite sequence of [set], [get],
    [delete] and [contains], whether the operation returned or raised. *)
Theorem C2_capacity_invariant (C : Z) (os : list (@lru_dict.op K V)) :
  (0 < C)%Z →
  Forall (λ c', (lru_dict.length_of c' ≤ C)%Z)
    (lru_dict.trace (lru_dict.init C) os).
Proof.
  intros HC.
  apply (trace_bounded (lru_dict.init C) os); simpl; [lia|].
  unfold lru_dict.length_of, OrderedDict.len. simpl. lia.
Qed.

(** C3. In a cache of positive capacity that respects its bound:
    [get(k)] of a present key returns the stored value and leaves the
    dictionary as the other entries, in their order, followed by [k] with
    that value; [set(k, v)] of any key returns normally and leaves the
    dictionary as [rest ++ [(k, v)]], where [rest] holds no entry of [k]
    (the old value is replaced) and is the other entries in their order,
    less at most one evicted from the front. *)
Theorem C3_get_and_set_move_to_most_recent c k v :
  (0 < lru_dict.size c)%Z →
  (lru_dict.length_of c ≤ lru_dict.size c)%Z →
  (∀ v0, OrderedDict.get k (lru_dict.dict c) = Some v0 →
     ∃ c', lru_dict.getitem k c = (Ok v0, c') ∧
       lru_dict.dict c' =
         OrderedDict.remove k (lru_dict.dict c) ++ [(k, v0)] ∧
       last (lru_dict.dict c') = Some (k, v0) ∧
       OrderedDict.remove k (lru_dict.dict c') =
         OrderedDict.remove k (lru_dict.dict c)) ∧
  (∃ c' evicted rest,
     lru_dict.setitem k v c = (Ok (), c') ∧
     lru_dict.dict c' = rest ++ [(k, v)] ∧
     last (lru_dict.dict c') = Some (k, v) ∧
     OrderedDict.get k (lru_dict.dict c') = Some v ∧
     OrderedDict.get k rest = None ∧
     OrderedDict.remove k (lru_dict.dict c') = rest ∧
     OrderedDict.remove k (lru_dict.dict c) = evicted ++ rest ∧
     length evicted ≤ 1).
Proof.
  intros Hpos Hle. split.
  - intros v0 Hget. rewrite getitem_spec, Hget.
    eexists. split; [done|]. simpl. split_and!; [done | apply last_snoc |].
    rewrite remove_app, remove_idemp. simpl.
    destruct (decide (k = k)); [|done]. by rewrite app_nil_r.
  - by apply setitem_recency.
Qed.

(** Built with capacity 0, the cache is empty whatever was done to it. *)
Lemma run_init_0 (os : list (@lru_dict.op K V)) :
  lru_dict.run (lru_dict.init 0) os = lru_dict.init 0.
Proof.
  pose proof (run_size (lru_dict.init 0) os) as Hsz.
  pose proof (run_bounded (lru_dict.init 0) os) as Hle.
  destruct (lru_dict.run (lru_dict.init 0) os) as [sz d].
  unfold lru_dict.length_of, OrderedDict.len in Hle. simpl in *. subst sz.
  destruct d; simpl in *; [done | lia].
Qed.

(** C10. Built with capacity 0, the cache evicts in every [set(k, v)] the
    entry that this call inserted (the entry [popitem] takes is [(k, v)]
    itself), and it is empty after every [set]. Built with a capacity of at
    least 1, it holds [k] with value [v], as its newest entry, after every
    [set(k, v)]: the entry evicted is never the new one. Both hold after
    any sequence of operations on the cache. *)
Theorem C10_capacity_zero_evicts_new_entry :
  (∀ (os : list (@lru_dict.op K V)) k v,
     let c := lru_dict.run (lru_dict.init 0) os in
     OrderedDict.popitem_first
       (OrderedDict.setitem k v
          (snd (OrderedDict.pop_default k (lru_dict.dict c)))) =
       Some ((k, v), []) ∧
     lru_dict.setitem k v c = (Ok (), lru_dict.init 0) ∧
     lru_dict.dict (snd (lru_dict.setitem k v c)) = []) ∧
  (∀ (C : Z) (os : list (@lru_dict.op K V)) k v,
     (1 ≤ C)%Z →
     let c := lru_dict.run (lru_dict.init C) os in
     ∃ c', lru_dict.setitem k v c = (Ok (), c') ∧
       OrderedDict.get k (lru_dict.dict c') = Some v ∧
       last (lru_dict.dict c') = Some (k, v)).
Proof.
  split.
  - intros os k v. cbv zeta. rewrite run_init_0. simpl.
    by destruct (decide (k = k)).
  - intros C os k v HC. cbv zeta.
    set (c := lru_dict.run (lru_dict.init C) os).
    assert (lru_dict.size c = C) as Hsz by apply run_size.
    assert (lru_dict.length_of c ≤ lru_dict.size c)%Z as Hle.
    { rewrite Hsz. apply (run_bounded (lru_dict.init C) os); simpl; [lia|].
      unfold lru_dict.length_of, OrderedDict.len. simpl. lia. }
    destruct (setitem_bounded k v c ltac:(lia) Hle)
      as (evicted & rest & Hrm & _ & _ & Hset).
    eexists. split; [exact Hset|]. simpl. split; [|apply last_snoc].
    pose proof (get_remove_eq k (lru_dict.dict c)) as Hnone.
    rewrite Hrm, get_app in Hnone.
    rewrite get_app. destruct (OrderedDict.get k evicted); [done|].
    rewrite Hnone. simpl. by destruct (decide (k = k)).
Qed.
End lru_dict_claims.

(** * Facts about the sessions manager *)

Section sessions_facts.
Context {SessionId StateId Token SData StData : Type}.
Context `{EqDecision SessionId} `{EqDecision StateId}.
Import memory_sessions.
Implicit Types (s : Sessions SessionId StateId Token SData StData).
Implicit Types (r : Session StateId Token SData StData).
Implicit Types (sid : SessionId) (stid : StateId).

Lemma with_sessions_id s : with_sessions (_sessions s) s = s.
Proof. by destruct s. Qed.

Lemma set_states_id r : set_states (states r) r = r.
Proof. by destruct r. Qed.

Lemma LRUDict_eta {A B} (c : lru_dict.LRUDict A B) :
  lru_dict.mkLRUDict (lru_dict.size c) (lru_dict.dict c) = c.
Proof. by destruct c. Qed.

(** After the lookup of [sid] the session is the newest entry, and a write
    through the alias lands there. *)
Lemma write_session_last sid r r' (sz : Z)
    (d : list (SessionId * Session StateId Token SData StData)) :
  OrderedDict.get sid d = None →
  write_session sid r' (lru_dict.mkLRUDict sz (d ++ [(sid, r)])) =
  lru_dict.mkLRUDict sz (d ++ [(sid, r')]).
Proof.
  intros Hd. unfold write_session. simpl. by rewrite mutate_last.
Qed.

Lemma check_session_id_spec sid s :
  check_session_id sid s =
  (Ok (OrderedDict.contains sid (lru_dict.dict (_sessions s))), s).
Proof. unfold check_session_id. simpl. by rewrite with_sessions_id. Qed.

Lemma get_lock_spec sid s :
  get_lock sid s =
  match session_of sid s with
  | None => (Raise ExpirationError, s)
  | Some r =>
      (Ok (lock r),
       with_sessions
         (lru_dict.mkLRUDict (lru_dict.size (_sessions s))
            (OrderedDict.remove sid (lru_dict.dict (_sessions s)) ++ [(sid, r)]))
         s)
  end.
Proof.
  unfold get_lock, session_of. rewrite getitem_spec.
  destruct (OrderedDict.get sid _) as [r|]; [done|].
  by rewrite with_sessions_id.
Qed.

Lemma delete_spec sid s :
  delete sid s =
  match session_of sid s with
  | None => (Raise KeyError, s)
  | Some _ =>
      (Ok (),
       with_sessions
         (lru_dict.mkLRUDict (lru_dict.size (_sessions s))
            (OrderedDict.remove sid (lru_dict.dict (_sessions s))))
         s)
  end.
Proof.
  unfold delete, session_of. rewrite delitem_spec.
  destruct (OrderedDict.get sid _) as [r|]; [done|].
  by rewrite with_sessions_id.
Qed.

Lemma _create_spec sid (tok : Token) s :
  _create sid tok s =
  (Ok (sid, 0%Z, tok, LockHandle (locks_created (local s))),
   mkSessions (mkWorker (S (locks_created (local s)))) (nb_states s)
     (snd (lru_dict.setitem sid
             (mkSession 0 (LockHandle (locks_created (local s))) tok None
                (lru_dict.init (nb_states s)))
             (_sessions s)))).
Proof. unfold _create. simpl. by rewrite setitem_spec. Qed.

Lemma _fetch_spec sid stid s :
  _fetch sid stid s =
  match session_of sid s with
  | None => (Raise ExpirationError, s)
  | Some r =>
      let others := OrderedDict.remove sid (lru_dict.dict (_sessions s)) in
      match OrderedDict.get stid (lru_dict.dict (states r)) with
      | None =>
          (Raise ExpirationError,
           with_sessions
             (lru_dict.mkLRUDict (lru_dict.size (_sessions s))
                (others ++ [(sid, r)]))
             s)
      | Some state_data =>
          (Ok (last_state_id r, secure_token r, session_data r, state_data),
           with_sessions
             (lru_dict.mkLRUDict (lru_dict.size (_sessions s))
                (others ++
                 [(sid,
                   set_states
                     (lru_dict.mkLRUDict (lru_dict.size (states r))
                        (OrderedDict.remove stid (lru_dict.dict (states r)) ++
                         [(stid, state_data)]))
                     r)]))
             s)
      end
  end.
Proof.
  unfold _fetch, session_of. rewrite getitem_spec.
  destruct (OrderedDict.get sid _) as [r|]; [|by rewrite with_sessions_id].
  rewrite getitem_spec. cbv zeta.
  destruct (OrderedDict.get stid _) as [state_data|];
    rewrite write_session_last by apply get_remove_eq; [done|].
  by rewrite set_states_id.
Qed.

Lemma _store_spec sid stid (tok : Token) (same : bool)
    (sdata : option SData) (stdata : StData) s :
  _store sid stid tok same sdata stdata s =
  match session_of sid s with
  | None => (Raise KeyError, s)
  | Some r =>
      (Ok (),
       with_sessions
         (lru_dict.mkLRUDict (lru_dict.size (_sessions s))
            (OrderedDict.remove sid (lru_dict.dict (_sessions s)) ++
             [(sid,
               mkSession
                 (if same then last_state_id r else last_state_id r + 1)
                 (lock r) tok sdata
                 (snd (lru_dict.setitem stid stdata (states r))))]))
         s)
  end.
Proof.
  unfold _store, session_of. rewrite getitem_spec.
  destruct (OrderedDict.get sid _) as [r|]; [|by rewrite with_sessions_id].
  cbv zeta. destruct same; simpl; rewrite setitem_spec;
    by rewrite write_session_last by apply get_remove_eq.
Qed.
End sessions_facts.

(** * The bounds of the manager are an invariant *)

Section sessions_invariant.
Context {SessionId StateId Token SData StData : Type}.
Context `{EqDecision SessionId} `{EqDecision StateId}.
Import memory_sessions.
Implicit Types (s : Sessions SessionId StateId Token SData StData).
Implicit Types (r : Session StateId Token SData StData).

(** A manager built with positive [nb_sessions] and [nb_states] is well
    formed. *)
Lemma init_well_formed (w : Worker) (nb_sessions nb_states : Z) :
  (0 < nb_sessions)%Z → (0 < nb_states)%Z →
  well_formed
    (init w nb_sessions nb_states
       : Sessions SessionId StateId Token SData StData).
Proof.
  intros Hs Hst. split_and!; simpl; [done | by apply init_bounded |].
  constructor.
Qed.

(** Moving a session to the newest position, with a record that respects
    the inner bound, keeps the manager well formed. *)
Lemma promote_well_formed s sid r r' :
  well_formed s →
  session_of sid s = Some r →
  lru_dict.size (states r') = nb_states s →
  lru_dict.bounded (states r') →
  well_formed
    (with_sessions
       (lru_dict.mkLRUDict (lru_dict.size (_sessions s))
          (OrderedDict.remove sid (lru_dict.dict (_sessions s)) ++
           [(sid, r')]))
       s).
Proof.
  intros (Hnb & Hout & Hin) Hs Hsz Hbd. split_and!; simpl; [done | |].
  - by eapply promote_bounded.
  - apply Forall_app. split; [by apply remove_Forall|].
    by constructor.
Qed.

(** Every call keeps the manager well formed, whether it returns or
    raises. *)
Lemma step_well_formed s (c : call) :
  well_formed s → well_formed (step s c).
Proof.
  intros Hwf. pose proof Hwf as (Hnb & Hout & Hin).
  destruct c as [sid|sid|sid tok|sid|sid stid|sid stid tok same sdata stdata];
    cbn [step].
  - by rewrite check_session_id_spec.
  - rewrite get_lock_spec.
    destruct (session_of sid s) as [r|] eqn:Hs; simpl; [|done].
    destruct (get_Forall _ _ _ _ Hin Hs) as [Hsz Hbd].
    by eapply promote_well_formed.
  - rewrite _create_spec. simpl. split_and!; simpl; [done | |].
    + apply (step_preserves_bounded (_sessions s) (lru_dict.OpSet sid _) Hout).
    + apply setitem_Forall; [done|]. simpl. split; [done|].
      by apply init_bounded.
  - rewrite delete_spec.
    destruct (session_of sid s) as [r|] eqn:Hs; simpl; [|done].
    split_and!; simpl; [done | by apply remove_bounded | by apply remove_Forall].
  - rewrite _fetch_spec.
    destruct (session_of sid s) as [r|] eqn:Hs; simpl; [|done].
    destruct (get_Forall _ _ _ _ Hin Hs) as [Hsz Hbd]. simpl in *.
    destruct (OrderedDict.get stid (lru_dict.dict (states r)))
      as [state_data|] eqn:Hst; simpl.
    + eapply promote_well_formed; [done | done | done |]. simpl.
      by eapply promote_bounded.
    + by eapply promote_well_formed.
  - rewrite _store_spec.
    destruct (session_of sid s) as [r|] eqn:Hs; simpl; [|done].
    destruct (get_Forall _ _ _ _ Hin Hs) as [Hsz Hbd]. simpl in *.
    eapply promote_well_formed; [done | done | |]; simpl.
    + by rewrite setitem_spec.
    + apply (step_preserves_bounded (states r) (lru_dict.OpSet stid stdata) Hbd).
Qed.

(** So every manager that calls can produce from a well-formed one is well
    formed: the bounds assumed of the caches in the theorems below hold
    throughout. *)
Lemma run_well_formed s (cs : list call) :
  well_formed s → well_formed (run s cs).
Proof.
  unfold run. revert s.
  induction cs as [|c cs IH]; intros s Hwf; simpl; [done|].
  by apply IH, step_well_formed.
Qed.

(** No call changes the configuration: the capacity of the outer cache and
    [nb_states] are what the manager was built with. *)
Lemma step_config s (c : call) :
  nb_states (step s c) = nb_states s ∧
  lru_dict.size (_sessions (step s c)) = lru_dict.size (_sessions s).
Proof.
  destruct c as [sid|sid|sid tok|sid|sid stid|sid stid tok same sdata stdata];
    cbn [step].
  - by rewrite check_session_id_spec.
  - rewrite get_lock_spec. by destruct (session_of sid s).
  - rewrite _create_spec. simpl. by rewrite setitem_spec.
  - rewrite delete_spec. by destruct (session_of sid s).
  - rewrite _fetch_spec. destruct (session_of sid s) as [r|]; [|done].
    cbv zeta. by destruct (OrderedDict.get stid _).
  - rewrite _store_spec. by destruct (session_of sid s).
Qed.

Lemma run_config s (cs : list call) :
  nb_states (run s cs) = nb_states s ∧
  lru_dict.size (_sessions (run s cs)) = lru_dict.size (_sessions s).
Proof.
  unfold run. revert s.
  induction cs as [|c cs IH]; intros s; simpl; [done|].
  destruct (IH (step s c)) as [-> ->]. apply step_config.
Qed.

(** X1. In a manager built with positive [nb_sessions] and [nb_states],
    after any sequence of calls, the outer cache holds at most
    [nb_sessions] sessions and the inner cache of every session holds at
    most [nb_states] states. *)
Theorem X1_sessions_bounds_invariant
    (w : Worker) (nb_sessions nb_states : Z) (cs : list call) :
  (0 < nb_sessions)%Z → (0 < nb_states)%Z →
  let s : Sessions SessionId StateId Token SData StData :=
    run (init w nb_sessions nb_states) cs in
  (0 ≤ lru_dict.length_of (_sessions s) ≤ nb_sessions)%Z ∧
  ∀ sid r, session_of sid s = Some r →
    (0 ≤ lru_dict.length_of (states r) ≤ nb_states)%Z.
Proof.
  intros Hs Hst. cbv zeta.
  pose proof (run_well_formed _ cs
                (init_well_formed w nb_sessions nb_states Hs Hst))
    as (_ & [_ Hout] & Hin).
  destruct (run_config (init w nb_sessions nb_states) cs) as [Hnb Hsz].
  simpl in Hnb, Hsz. rewrite Hsz in Hout. split.
  - unfold lru_dict.length_of, OrderedDict.len in *. lia.
  - intros sid r Hr.
    destruct (get_Forall _ _ _ _ Hin Hr) as [Hsize [_ Hle]]. simpl in *.
    rewrite Hnb in Hsize. rewrite Hsize in Hle.
    unfold lru_dict.length_of, OrderedDict.len in *. lia.
Qed.

(** X2. [store] on a session that is not in the outer cache raises the
    [KeyError] of the cache, not [ExpirationError], and changes nothing. *)
Theorem X2_store_unknown_session_raises_KeyError
    s (sid : SessionId) (stid : StateId) (tok : Token) (same : bool)
    (sdata : option SData) (stdata : StData) :
  session_of sid s = None →
  _store sid stid tok same sdata stdata s = (Raise KeyError, s).
Proof. intros Hs. by rewrite _store_spec, Hs. Qed.
End sessions_invariant.

(** * The sessions manager: fetch, store, create, locks, membership *)

Section sessions_claims.
Context {SessionId StateId Token SData StData : Type}.
Context `{EqDecision SessionId} `{EqDecision StateId}.
Import memory_sessions.
Implicit Types (s : Sessions SessionId StateId Token SData StData).
Implicit Types (r : Session StateId Token SData StData).
Implicit Types (sid : SessionId) (stid : StateId).

(** C4. [fetch(sessionId, stateId)] raises [ExpirationError] when the
    session is not in the outer cache, and also when the session is there
    but the state is not in its inner cache. When both are there it returns
    the session's last state id, secure token and session data with the
    data of the state; afterwards the session is the newest entry of the
    outer cache and the state the newest entry of the session's inner
    cache, all other entries being in the order they were in. *)
Theorem C4_fetch_expired_or_promotes sid stid s :
  (session_of sid s = None →
     _fetch sid stid s = (Raise ExpirationError, s)) ∧
  (∀ r, session_of sid s = Some r →
     OrderedDict.get stid (lru_dict.dict (states r)) = None →
     fst (_fetch sid stid s) = Raise ExpirationError) ∧
  (∀ r state_data, session_of sid s = Some r →
     OrderedDict.get stid (lru_dict.dict (states r)) = Some state_data →
     ∃ s' r',
       _fetch sid stid s =
         (Ok (last_state_id r, secure_token r, session_data r, state_data),
          s') ∧
       lru_dict.dict (_sessions s') =
         OrderedDict.remove sid (lru_dict.dict (_sessions s)) ++ [(sid, r')] ∧
       last (lru_dict.dict (_sessions s')) = Some (sid, r') ∧
       lru_dict.dict (states r') =
         OrderedDict.remove stid (lru_dict.dict (states r)) ++
         [(stid, state_data)] ∧
       last (lru_dict.dict (states r')) = Some (stid, state_data) ∧
       (last_state_id r', lock r', secure_token r', session_data r') =
         (last_state_id r, lock r, secure_token r, session_data r)).
Proof.
  split_and!.
  - intros Hs. by rewrite _fetch_spec, Hs.
  - intros r Hs Hst. by rewrite _fetch_spec, Hs, Hst.
  - intros r state_data Hs Hst. rewrite _fetch_spec, Hs. cbv zeta.
    rewrite Hst. eexists _, _. split; [done|]. simpl.
    split_and!; [done | apply last_snoc | done | apply last_snoc | done].
Qed.

(** C5. [store] on an existing session returns normally and leaves a
    session record whose last state id is one more than before when
    [use_same_state] is false and the same as before when it is true;
    whose secure token and session data are the ones given; whose lock is
    untouched; and whose inner cache is the old one after [set(state_id,
    state_data)] on it. When the inner cache has a positive capacity and
    respects it, this means: the state is its newest entry, with the given
    data, and of the other states at most the least recently used one is
    gone. *)
Theorem C5_store_updates_session sid stid (tok : Token) (same : bool)
    (sdata : option SData) (stdata : StData) s r :
  session_of sid s = Some r →
  ∃ s' r',
    _store sid stid tok same sdata stdata s = (Ok (), s') ∧
    session_of sid s' = Some r' ∧
    last_state_id r' =
      (if same then last_state_id r else last_state_id r + 1)%Z ∧
    secure_token r' = tok ∧
    session_data r' = sdata ∧
    lock r' = lock r ∧
    lru_dict.setitem stid stdata (states r) = (Ok (), states r') ∧
    ((0 < lru_dict.size (states r))%Z →
     (lru_dict.length_of (states r) ≤ lru_dict.size (states r))%Z →
     ∃ evicted rest,
       lru_dict.dict (states r') = rest ++ [(stid, stdata)] ∧
       OrderedDict.get stid (lru_dict.dict (states r')) = Some stdata ∧
       OrderedDict.remove stid (lru_dict.dict (states r)) = evicted ++ rest ∧
       length evicted ≤ 1).
Proof.
  intros Hs. rewrite _store_spec, Hs.
  set (r' := mkSession _ _ _ _ _). eexists _, r'. split; [done|].
  unfold session_of. simpl.
  split_and!; [| done | done | done | done | by rewrite setitem_spec |].
  - rewrite get_app, get_remove_eq. simpl. by destruct (decide (sid = sid)).
  - intros Hpos Hle.
    destruct (setitem_recency stid stdata (states r) Hpos Hle)
      as (c' & evicted & rest & Hset & Hd & _ & Hget & _ & _ & Hrm & Hlen).
    rewrite Hset. simpl. by exists evicted, rest.
Qed.

(** C6. [create(id, secure_token)] calls the lock factory once (its count
    of calls goes up by one) and the lock it gets was handed out by no
    earlier call. It returns [(id, 0, secure_token, lock)] and does
    [set(id, record)] on the outer cache, where the record has last state
    id 0, that lock, the given token, no session data and an empty inner
    cache of capacity [nb_states]. When the outer cache has a positive
    capacity and respects it, the record is found under [id] afterwards, as
    the newest entry, whether or not [id] was there before: an existing
    session's record is replaced. *)
Theorem C6_create_inserts_fresh_session sid (tok : Token) s :
  let lk := LockHandle (locks_created (local s)) in
  let record := mkSession 0 lk tok None (lru_dict.init (nb_states s)) in
  ∃ s',
    _create sid tok s = (Ok (sid, 0%Z, tok, lk), s') ∧
    create_lock (local s) = (lk, local s') ∧
    locks_created (local s') = S (locks_created (local s)) ∧
    (∀ n, n < locks_created (local s) → lk ≠ LockHandle n) ∧
    nb_states s' = nb_states s ∧
    lru_dict.setitem sid record (_sessions s) = (Ok (), _sessions s') ∧
    lru_dict.dict (states record) = [] ∧
    lru_dict.size (states record) = nb_states s ∧
    ((0 < lru_dict.size (_sessions s))%Z →
     (lru_dict.length_of (_sessions s) ≤ lru_dict.size (_sessions s))%Z →
     session_of sid s' = Some record ∧
     last (lru_dict.dict (_sessions s')) = Some (sid, record)).
Proof.
  cbv zeta. rewrite _create_spec. eexists. split; [done|]. simpl.
  split_and!; [done | done | | done | by rewrite setitem_spec | done | done |].
  - intros n Hn [=]. lia.
  - intros Hpos Hle. unfold session_of. simpl.
    destruct (setitem_recency sid
                (mkSession 0 (LockHandle (locks_created (local s))) tok None
                   (lru_dict.init (nb_states s)))
                (_sessions s) Hpos Hle)
      as (c' & _ & _ & Hset & _ & Hlast & Hget & _).
    by rewrite Hset.
Qed.

(** C7. [get_lock(id)] raises [ExpirationError] exactly when [id] is not in
    the outer cache, and then changes nothing; otherwise it returns the
    lock of the session, and the outer cache is what the lookup [get(id)]
    leaves: the session moved to the newest position, the others as they
    were. [delete(id)] removes the entry of a present [id] and nothing
    else; on an absent [id] it raises [KeyError] and changes nothing. *)
Theorem C7_get_lock_and_delete sid s :
  (fst (get_lock sid s) = Raise ExpirationError ↔ session_of sid s = None) ∧
  (session_of sid s = None → get_lock sid s = (Raise ExpirationError, s)) ∧
  (∀ r, session_of sid s = Some r →
     get_lock sid s =
       (Ok (lock r),
        with_sessions (snd (lru_dict.getitem sid (_sessions s))) s) ∧
     lru_dict.dict (snd (lru_dict.getitem sid (_sessions s))) =
       OrderedDict.remove sid (lru_dict.dict (_sessions s)) ++ [(sid, r)]) ∧
  (∀ r, session_of sid s = Some r →
     ∃ s', delete sid s = (Ok (), s') ∧
       session_of sid s' = None ∧
       lru_dict.dict (_sessions s') =
         OrderedDict.remove sid (lru_dict.dict (_sessions s))) ∧
  (session_of sid s = None → delete sid s = (Raise KeyError, s)).
Proof.
  split_and!.
  - rewrite get_lock_spec. destruct (session_of sid s); simpl; [|done].
    split; intros [=].
  - intros Hs. by rewrite get_lock_spec, Hs.
  - intros r Hs. rewrite get_lock_spec, Hs, getitem_spec.
    unfold session_of in Hs. by rewrite Hs.
  - intros r Hs. rewrite delete_spec, Hs. eexists. split; [done|].
    unfold session_of. simpl. split; [apply get_remove_eq | done].
  - intros Hs. by rewrite delete_spec, Hs.
Qed.

(** C9. A [store] on an existing session returns normally and leaves that
    session as the newest entry of the outer cache. The ids in the outer
    cache are the ones that were there (each once, when they were distinct
    as the keys of a dictionary are), the entries of the other sessions are
    what they were, in the order they were in, and the capacity is
    unchanged. *)
Theorem C9_store_promotes_session sid stid (tok : Token) (same : bool)
    (sdata : option SData) (stdata : StData) s r :
  session_of sid s = Some r →
  ∃ s' r',
    _store sid stid tok same sdata stdata s = (Ok (), s') ∧
    last (lru_dict.dict (_sessions s')) = Some (sid, r') ∧
    (∀ id, id ∈ OrderedDict.keys (lru_dict.dict (_sessions s')) ↔
           id ∈ OrderedDict.keys (lru_dict.dict (_sessions s))) ∧
    OrderedDict.remove sid (lru_dict.dict (_sessions s')) =
      OrderedDict.remove sid (lru_dict.dict (_sessions s)) ∧
    lru_dict.dict (_sessions s') =
      OrderedDict.remove sid (lru_dict.dict (_sessions s)) ++ [(sid, r')] ∧
    lru_dict.size (_sessions s') = lru_dict.size (_sessions s) ∧
    (NoDup (OrderedDict.keys (lru_dict.dict (_sessions s))) →
     OrderedDict.keys (lru_dict.dict (_sessions s')) ≡ₚ
     OrderedDict.keys (lru_dict.dict (_sessions s))).
Proof.
  intros Hs. rewrite _store_spec, Hs.
  set (r' := mkSession _ _ _ _ _). eexists _, r'. split; [done|]. simpl.
  split_and!; [apply last_snoc | | | done | done
               | intros Hd; by eapply keys_promote_perm].
  - intros id. unfold OrderedDict.keys at 1. rewrite fmap_app, elem_of_app.
    fold (OrderedDict.keys (OrderedDict.remove sid (lru_dict.dict (_sessions s)))).
    rewrite keys_remove. simpl. rewrite list_elem_of_singleton.
    assert (sid ∈ OrderedDict.keys (lru_dict.dict (_sessions s))) as Hin.
    { apply get_Some_keys. unfold session_of in Hs. by rewrite Hs. }
    destruct (decide (id = sid)) as [->|Hne]; [tauto|]. tauto.
  - rewrite remove_app, remove_idemp. simpl.
    destruct (decide (sid = sid)); [|done]. by rewrite app_nil_r.
Qed.
End sessions_claims.

(** * Membership tests *)

Section membership_claims.
Context {K V : Type} `{EqDecision K}.
Context {SessionId StateId Token SData StData : Type}.
Context `{EqDecision SessionId}.
Import memory_sessions.

(** C8. [contains(k)] on a cache, and [check_session_id(id)] on the
    manager, return normally, with [true] exactly when the key is in the
    dictionary, and leave the object as it was: the same entries, in the
    same order. *)
Theorem C8_contains_changes_nothing
    (c : lru_dict.LRUDict K V) (k : K)
    (s : Sessions SessionId StateId Token SData StData) (sid : SessionId) :
  (∃ b, lru_dict.contains k c = (Ok b, c) ∧
        (b = true ↔ k ∈ OrderedDict.keys (lru_dict.dict c))) ∧
  (∃ b, check_session_id sid s = (Ok b, s) ∧
        (b = true ↔
         sid ∈ OrderedDict.keys (lru_dict.dict (_sessions s)))).
Proof.
  split.
  - eexists. split; [done|]. rewrite contains_keys.
    apply bool_decide_eq_true.
  - eexists. split; [apply check_session_id_spec|]. rewrite contains_keys.
    apply bool_decide_eq_true.
Qed.
End membership_claims.

(** * Scenarios on a manager with two sessions of two states *)

Section sessions_scenarios.
Import memory_sessions samples.
Local Open Scope string_scope.
Local Open Scope Z_scope.

(** Creating a third session evicts the first one: its lock is gone and
    its id is unknown. *)
Example scenario_create_evicts :
  let s1 := snd (_create 1 "token-1" empty_store) in
  let s2 := snd (_create 2 "token-2" s1) in
  let s3 := snd (_create 3 "token-3" s2) in
  fst (_create 3 "token-3" s2) = Ok (3, 0, "token-3", LockHandle 2) ∧
  OrderedDict.keys (lru_dict.dict (_sessions s3)) = [2; 3] ∧
  fst (get_lock 1 s3) = Raise ExpirationError ∧
  fst (check_session_id 1 s3) = Ok false ∧
  fst (get_lock 2 s3) = Ok (LockHandle 1).
Proof. repeat split. Qed.

(** Fetching an unknown state of a known session expires; storing advances
    the last state id unless the same state is reused. *)
Example scenario_fetch_and_store :
  fst (_fetch 1 7 store) = Raise ExpirationError ∧
  fst (_fetch 1 0 store) = Ok (3, "token-1", Some "data-1", "state-0") ∧
  (last_state_id <$> session_of 1
     (snd (_store 1 2 "token-1'" true (Some "data-1'") "state-2" store))) =
    Some 3 ∧
  (last_state_id <$> session_of 1
     (snd (_store 1 2 "token-1'" false (Some "data-1'") "state-2" store))) =
    Some 4 ∧
  (lru_dict.dict ∘ states <$> session_of 1
     (snd (_store 1 2 "token-1'" false (Some "data-1'") "state-2" store))) =
    Some [(1, "state-1"); (2, "state-2")] ∧
  fst (_store 9 0 "token-9" false None "state-0" store) = Raise KeyError.
Proof. repeat split. Qed.
End sessions_scenarios.

(** * The keys of a cache after a sequence of writes *)

Section recent_keys.
Context {K : Type} `{EqDecision K}.
Implicit Types (k : K) (l : list K).

Lemma filter_ne_notin k l : k ∉ l → filter (λ x, x ≠ k) l = l.
Proof.
  induction l as [|x l IH]; [done|].
  intros [Hx Hl]%not_elem_of_cons. rewrite filter_cons.
  destruct (decide (x ≠ k)) as [|Hn]; [by rewrite IH|].
  exfalso. apply Hn. congruence.
Qed.

Lemma filter_ne_length k l :
  NoDup l → k ∈ l → S (length (filter (λ x, x ≠ k) l)) = length l.
Proof.
  induction l as [|x l IH]; [by intros _ ?%elem_of_nil|].
  intros [Hx Hl]%NoDup_cons Hin. rewrite filter_cons.
  destruct (decide (x ≠ k)) as [Hne|Heq]; simpl.
  - apply elem_of_cons in Hin as [->|Hin]; [done|]. by rewrite IH.
  - assert (x = k) as -> by (by destruct (decide (x = k))).
    by rewrite filter_ne_notin.
Qed.

Lemma remove_dups_snoc k l :
  remove_dups (l ++ [k]) = filter (λ x, x ≠ k) (remove_dups l) ++ [k].
Proof.
  induction l as [|x l IH]; simpl.
  - destruct (decide_rel elem_of k []) as [Hin|]; [|done]. by apply elem_of_nil in Hin.
  - rewrite IH.
    destruct (decide_rel elem_of x (l ++ [k])) as [Hin|Hnin];
      destruct (decide_rel elem_of x l) as [Hin'|Hnin']; try done.
    + apply elem_of_app in Hin as [?|Hk]; [done|].
      apply list_elem_of_singleton in Hk as ->.
      rewrite filter_cons. destruct (decide (k ≠ k)); done.
    + exfalso. apply Hnin, elem_of_app. by left.
    + rewrite filter_cons. destruct (decide (x ≠ k)) as [|Hn]; [done|].
      exfalso. apply Hnin, elem_of_app. right. apply list_elem_of_singleton.
      by destruct (decide (x = k)).
Qed.

(** The last [c] elements. *)
Lemma recent_step k l (c : nat) :
  NoDup l →
  let recent := drop (length l - c) l in
  let m := filter (λ x, x ≠ k) recent ++ [k] in
  drop (length (filter (λ x, x ≠ k) l ++ [k]) - c)
       (filter (λ x, x ≠ k) l ++ [k]) =
  if decide (c < length m) then tail m else m.
Proof.
  intros Hl. cbv zeta.
  rewrite <- (take_drop (length l - c) l) at 1 2.
  set (A := take (length l - c) l). set (B := drop (length l - c) l).
  assert (l = A ++ B) as HAB by (symmetry; apply take_drop).
  assert (length B = length l - (length l - c)) as HB by apply length_drop.
  assert (length A = length l - c) as HA.
  { unfold A. rewrite length_take. lia. }
  rewrite HAB in Hl. apply NoDup_app in Hl as (HA' & Hsep & HB').
  rewrite filter_app, !length_app. simpl.
  destruct (decide (k ∈ B)) as [Hin|Hnin].
  - assert (k ∉ A) as HkA by (intros ?; by eapply Hsep).
    rewrite (filter_ne_notin k A HkA).
    pose proof (filter_ne_length k B HB' Hin) as Hlen.
    rewrite decide_False by lia.
    rewrite <- app_assoc. apply drop_app_length'. lia.
  - rewrite (filter_ne_notin k B Hnin).
    pose proof (length_filter (λ x, x ≠ k) A) as HfA.
    destruct (decide (c < length B + 1)) as [Hlt|Hge].
    + assert (length B = c) as HBc by lia.
      rewrite <- app_assoc.
      rewrite drop_app_ge by lia.
      replace (_ - _) with 1 by lia.
      by destruct B.
    + assert (A = []) as ->.
      { destruct A; [done|]. simpl in *. lia. }
      simpl. replace (_ - _) with 0 by lia. done.
Qed.
End recent_keys.

(** * What a cache holds after writes only *)

Section lru_recent.
Context {K V : Type} `{EqDecision K}.
Implicit Types (k : K) (v : V) (c : lru_dict.LRUDict K V) (d : list (K * V)).

Lemma keys_remove_filter k d :
  OrderedDict.keys (OrderedDict.remove k d) =
  filter (λ x, x ≠ k) (OrderedDict.keys d).
Proof.
  unfold OrderedDict.keys. induction d as [|[k' v'] d IH]; [done|].
  rewrite fmap_cons. cbn [OrderedDict.remove fst].
  destruct (decide (k = k')) as [->|Hne].
  - rewrite filter_cons_False by (by intros ?). exact IH.
  - rewrite filter_cons_True by congruence. rewrite fmap_cons. by rewrite IH.
Qed.

Lemma get_tail k v d :
  NoDup (OrderedDict.keys d) →
  OrderedDict.get k (tail d) = Some v → OrderedDict.get k d = Some v.
Proof.
  destruct d as [|[k' v'] d]; simpl; [done|].
  intros [Hk' _]%NoDup_cons Hget.
  destruct (decide (k = k')) as [->|]; [|done].
  exfalso. apply Hk'. apply get_Some_keys. by rewrite Hget.
Qed.

Lemma run_snoc c (os : list lru_dict.op) (o : lru_dict.op) :
  lru_dict.run c (os ++ [o]) = lru_dict.step (lru_dict.run c os) o.
Proof. unfold lru_dict.run. by rewrite foldl_app. Qed.

Lemma run_NoDup c (os : list lru_dict.op) :
  NoDup (OrderedDict.keys (lru_dict.dict c)) →
  NoDup (OrderedDict.keys (lru_dict.dict (lru_dict.run c os))).
Proof.
  unfold lru_dict.run. revert c.
  induction os as [|o os IH]; intros c Hc; simpl; [done|].
  by apply IH, step_NoDup.
Qed.

Lemma setitem_keys k v c :
  OrderedDict.keys (lru_dict.dict (snd (lru_dict.setitem k v c))) =
  let m := filter (λ x, x ≠ k) (OrderedDict.keys (lru_dict.dict c)) ++ [k] in
  if decide (Z.to_nat (lru_dict.size c) < length m) then tail m else m.
Proof.
  rewrite setitem_spec. cbv zeta. simpl.
  rewrite <- keys_remove_filter.
  set (R := OrderedDict.remove k (lru_dict.dict c)).
  assert (OrderedDict.keys (R ++ [(k, v)]) = OrderedDict.keys R ++ [k]) as Hk.
  { unfold OrderedDict.keys. by rewrite fmap_app. }
  assert (length (OrderedDict.keys R ++ [k]) = S (length R)) as Hlen.
  { unfold OrderedDict.keys. rewrite length_app, length_fmap. simpl. lia. }
  rewrite Hlen. unfold OrderedDict.len. rewrite length_app. simpl.
  destruct (Z.gtb_spec (Z.of_nat (length R + 1)) (lru_dict.size c)) as [Hgt|Hle];
    [rewrite decide_True by lia | rewrite decide_False by lia].
  - rewrite <- Hk. unfold OrderedDict.keys. by destruct (R ++ [(k, v)]).
  - done.
Qed.

(** X3. A new cache of capacity [C] that has only been written to holds
    exactly the last [C] distinct keys that were written, oldest first in
    the order of their last write, and each of them with the value that
    was written to it last. With [C ≤ 0] it holds nothing. *)
Theorem X3_cache_holds_most_recent_keys (C : Z) (kvs : list (K * V)) :
  let c :=
    lru_dict.run (lru_dict.init C)
      ((λ kv, lru_dict.OpSet kv.1 kv.2) <$> kvs) in
  let recent := remove_dups (kvs.*1) in
  OrderedDict.keys (lru_dict.dict c) =
    drop (length recent - Z.to_nat C) recent ∧
  ∀ k, k ∈ OrderedDict.keys (lru_dict.dict c) →
    OrderedDict.get k (lru_dict.dict c) = OrderedDict.get k (reverse kvs).
Proof.
  cbv zeta. induction kvs as [|[k v] kvs [IHk IHv]] using rev_ind.
  - simpl. split; [done|]. by intros k ?%elem_of_nil.
  - rewrite !fmap_app. cbn [fmap list_fmap fst snd]. rewrite run_snoc.
    cbn [lru_dict.step].
    set (c := lru_dict.run (lru_dict.init C)
                ((λ kv, lru_dict.OpSet kv.1 kv.2) <$> kvs)) in *.
    assert (lru_dict.size c = C) as Hsz by apply run_size.
    assert (NoDup (OrderedDict.keys (lru_dict.dict c))) as Hnd.
    { apply run_NoDup. constructor. }
    split.
    + rewrite setitem_keys. cbv zeta. rewrite Hsz, IHk, remove_dups_snoc.
      symmetry. apply recent_step, NoDup_remove_dups.
    + intros k' Hin. rewrite reverse_snoc. simpl.
      pose proof (step_NoDup c (lru_dict.OpSet k v) Hnd) as Hnd'.
      simpl in Hnd'.
      apply get_Some_keys in Hin as [v' Hget]. rewrite Hget.
      revert Hget Hnd'. rewrite setitem_spec. simpl.
      assert (NoDup (OrderedDict.keys
                (OrderedDict.remove k (lru_dict.dict c) ++ [(k, v)]))) as HX
        by by apply keys_promote_NoDup.
      assert (OrderedDict.get k'
                (OrderedDict.remove k (lru_dict.dict c) ++ [(k, v)]) = Some v' →
              Some v' = (if decide (k' = k) then Some v
                         else OrderedDict.get k' (reverse kvs))) as Hmain.
      { rewrite get_app. destruct (decide (k' = k)) as [->|Hne].
        - rewrite get_remove_eq. simpl. destruct (decide (k = k)); [|done].
          by intros [= ->].
        - rewrite get_remove_ne by done.
          destruct (OrderedDict.get k' (lru_dict.dict c)) as [v0|] eqn:E.
          + intros [= ->]. rewrite <- IHv; [done|].
            apply get_Some_keys. by rewrite E.
          + simpl. by destruct (decide (k' = k)). }
      destruct (_ >? _)%Z; intros Hget _; [|by apply Hmain].
      apply Hmain. by apply get_tail.
Qed.
End lru_recent.

(** * Errors, round trips and deletion in the LRU dictionary *)

Section lru_more.
Context {K V : Type} `{EqDecision K}.
Implicit Types (k : K) (v : V) (c : lru_dict.LRUDict K V) (d : list (K * V)).

Lemma contains_get k d :
  OrderedDict.contains k d = false ↔ OrderedDict.get k d = None.
Proof.
  unfold OrderedDict.contains. by destruct (OrderedDict.get k d).
Qed.

(** X4. [KeyError] is the only exception of the cache. [getitem] and
    [delitem] raise it exactly when the key is absent, and a call that
    raises leaves the cache as it was; [setitem] never raises; a membership
    test returns a boolean and leaves the cache as it was. *)
Theorem X4_failed_operations_change_nothing c k v :
  (fst (lru_dict.getitem k c) = Raise KeyError ↔
     OrderedDict.contains k (lru_dict.dict c) = false) ∧
  (fst (lru_dict.delitem k c) = Raise KeyError ↔
     OrderedDict.contains k (lru_dict.dict c) = false) ∧
  (∀ e, fst (lru_dict.getitem k c) = Raise e →
     e = KeyError ∧ snd (lru_dict.getitem k c) = c) ∧
  (∀ e, fst (lru_dict.delitem k c) = Raise e →
     e = KeyError ∧ snd (lru_dict.delitem k c) = c) ∧
  fst (lru_dict.setitem k v c) = Ok () ∧
  (∃ b, lru_dict.contains k c = (Ok b, c)).
Proof.
  rewrite contains_get, getitem_spec, delitem_spec, setitem_spec.
  destruct (OrderedDict.get k (lru_dict.dict c)) as [v0|]; simpl;
    (split_and!; [split; intros [=]; done | split; intros [=]; done
                  | intros e [=]; done | intros e [=]; done | done | by eexists]).
Qed.

Lemma step_empty c (o : lru_dict.op) :
  (lru_dict.size c ≤ 0)%Z → lru_dict.dict c = [] →
  lru_dict.dict (lru_dict.step c o) = [].
Proof.
  intros Hsz Hd. destruct o as [k v|k|k|k]; simpl.
  - rewrite setitem_spec, Hd. simpl.
    destruct (Z.gtb_spec (OrderedDict.len [(k, v)]) (lru_dict.size c)) as [|Hle];
      [done|]. unfold OrderedDict.len in Hle. simpl in Hle. lia.
  - by rewrite getitem_spec, Hd.
  - by rewrite delitem_spec, Hd.
  - done.
Qed.

Lemma run_empty c (os : list lru_dict.op) :
  (lru_dict.size c ≤ 0)%Z → lru_dict.dict c = [] →
  lru_dict.dict (lru_dict.run c os) = [].
Proof.
  unfold lru_dict.run. revert c.
  induction os as [|o os IH]; intros c Hsz Hd; simpl; [done|].
  apply IH; [by rewrite step_size | by apply step_empty].
Qed.

(** X5. Whatever operations are run on a new cache of capacity [C],
    returned or raised, its capacity stays [C] and no key occurs twice in
    it; with a capacity of zero or less the cache is empty after every
    sequence of operations. *)
Theorem X5_size_fixed_and_keys_distinct (C : Z) (os : list (@lru_dict.op K V)) :
  let c := lru_dict.run (lru_dict.init C) os in
  lru_dict.size c = C ∧
  NoDup (OrderedDict.keys (lru_dict.dict c)) ∧
  ((C ≤ 0)%Z → lru_dict.dict c = []).
Proof.
  cbv zeta. split_and!.
  - apply run_size.
  - apply run_NoDup. constructor.
  - intros HC. by apply run_empty.
Qed.

Lemma get_tail_None k d :
  OrderedDict.get k d = None → OrderedDict.get k (tail d) = None.
Proof.
  destruct d as [|[k' v'] d]; simpl; [done|]. by destruct (decide (k = k')).
Qed.

(** What stays of the old entries when [k] is set: the entries of the other
    keys, less the oldest one when there is no room. It does not depend on
    the value. *)
Lemma setitem_rest k v c :
  (0 < lru_dict.size c)%Z →
  lru_dict.setitem k v c =
  (Ok (),
   lru_dict.mkLRUDict (lru_dict.size c)
     ((if (OrderedDict.len (OrderedDict.remove k (lru_dict.dict c)) + 1
           >? lru_dict.size c)%Z
       then tail (OrderedDict.remove k (lru_dict.dict c))
       else OrderedDict.remove k (lru_dict.dict c)) ++ [(k, v)])).
Proof.
  intros Hpos. rewrite setitem_spec, len_snoc.
  destruct (Z.gtb_spec
              (OrderedDict.len (OrderedDict.remove k (lru_dict.dict c)) + 1)
              (lru_dict.size c)) as [Hgt|]; [|done].
  destruct (OrderedDict.remove k (lru_dict.dict c)); [|done].
  unfold OrderedDict.len in Hgt. simpl in Hgt. lia.
Qed.

(** X6. In a cache of positive capacity that respects its bound, a key
    that was just set is read back with the value set, by a read that
    changes nothing, since the key is already the most recent one; it is a
    member; and setting it a second time gives the cache that setting it
    to the second value at once would have given. *)
Theorem X6_set_then_get_and_overwrite c k v v' :
  (0 < lru_dict.size c)%Z →
  (lru_dict.length_of c ≤ lru_dict.size c)%Z →
  let c1 := snd (lru_dict.setitem k v c) in
  lru_dict.getitem k c1 = (Ok v, c1) ∧
  lru_dict.contains k c1 = (Ok true, c1) ∧
  lru_dict.setitem k v' c1 = lru_dict.setitem k v' c.
Proof.
  intros Hpos Hle. cbv zeta.
  rewrite !(setitem_rest k _ c Hpos). simpl.
  set (R := OrderedDict.remove k (lru_dict.dict c)).
  set (rest := if (OrderedDict.len R + 1 >? lru_dict.size c)%Z
               then tail R else R).
  assert (OrderedDict.get k rest = None) as Hrest.
  { unfold rest. destruct (_ >? _)%Z; [apply get_tail_None|]; apply get_remove_eq. }
  assert (OrderedDict.len rest + 1 ≤ lru_dict.size c)%Z as Hlen.
  { pose proof (remove_length_le k (lru_dict.dict c)) as HR. fold R in HR.
    unfold rest, lru_dict.length_of, OrderedDict.len in *.
    destruct (Z.gtb_spec (Z.of_nat (length R) + 1) (lru_dict.size c));
      [|lia]. destruct R; simpl in *; lia. }
  assert (OrderedDict.remove k (rest ++ [(k, v)]) = rest) as Hrm.
  { rewrite remove_app, (remove_fresh _ _ Hrest). simpl.
    destruct (decide (k = k)); [|done]. by rewrite app_nil_r. }
  assert (OrderedDict.get k (rest ++ [(k, v)]) = Some v) as Hget.
  { rewrite get_app, Hrest. simpl. by destruct (decide (k = k)). }
  split_and!.
  - rewrite getitem_spec. simpl. by rewrite Hget, Hrm.
  - unfold lru_dict.contains, OrderedDict.contains. simpl. by rewrite Hget.
  - rewrite setitem_spec. simpl. rewrite Hrm, len_snoc.
    destruct (Z.gtb_spec (OrderedDict.len rest + 1) (lru_dict.size c));
      [lia | done].
Qed.

Lemma remove_length_present k v d :
  NoDup (OrderedDict.keys d) → OrderedDict.get k d = Some v →
  S (length (OrderedDict.remove k d)) = length d.
Proof.
  intros Hd Hget.
  pose proof (keys_remove_filter k d) as Hk.
  assert (k ∈ OrderedDict.keys d) as Hin.
  { apply get_Some_keys. by rewrite Hget. }
  pose proof (filter_ne_length k _ Hd Hin) as Hlen.
  rewrite <- Hk in Hlen. unfold OrderedDict.keys in Hlen.
  by rewrite !length_fmap in Hlen.
Qed.

(** X7. Deleting a present key from a cache that respects its bound
    removes the entry of that key and no other: the other keys keep their
    values, the length drops by one when the keys are distinct, reading or
    deleting the key again raises [KeyError] and changes nothing, and the
    [setitem] that follows evicts nothing. *)
Theorem X7_delete_frees_a_slot c k v0 k' v' :
  (lru_dict.length_of c ≤ lru_dict.size c)%Z →
  OrderedDict.get k (lru_dict.dict c) = Some v0 →
  ∃ c1,
    lru_dict.delitem k c = (Ok (), c1) ∧
    lru_dict.dict c1 = OrderedDict.remove k (lru_dict.dict c) ∧
    OrderedDict.get k (lru_dict.dict c1) = None ∧
    (∀ k2, k2 ≠ k →
       OrderedDict.get k2 (lru_dict.dict c1) =
       OrderedDict.get k2 (lru_dict.dict c)) ∧
    (NoDup (OrderedDict.keys (lru_dict.dict c)) →
       S (length (lru_dict.dict c1)) = length (lru_dict.dict c)) ∧
    lru_dict.getitem k c1 = (Raise KeyError, c1) ∧
    lru_dict.delitem k c1 = (Raise KeyError, c1) ∧
    lru_dict.setitem k' v' c1 =
      (Ok (),
       lru_dict.mkLRUDict (lru_dict.size c)
         (OrderedDict.remove k' (lru_dict.dict c1) ++ [(k', v')])).
Proof.
  intros Hle Hget. rewrite delitem_spec, Hget.
  eexists. split; [done|]. simpl.
  split_and!; [done | apply get_remove_eq | | | | |].
  - intros k2 Hne. by apply get_remove_ne.
  - intros Hd. by eapply remove_length_present.
  - by rewrite getitem_spec; simpl; rewrite get_remove_eq.
  - by rewrite delitem_spec; simpl; rewrite get_remove_eq.
  - rewrite setitem_spec, len_snoc. simpl.
    pose proof (remove_length_lt k v0 _ Hget) as H1.
    pose proof (remove_length_le k' (OrderedDict.remove k (lru_dict.dict c))) as H2.
    unfold lru_dict.length_of, OrderedDict.len in *.
    destruct (Z.gtb_spec
                (Z.of_nat (length (OrderedDict.remove k'
                   (OrderedDict.remove k (lru_dict.dict c)))) + 1)
                (lru_dict.size c)); [lia | done].
Qed.
End lru_more.

(** * The entry used last survives the next insertion *)

Section lru_survive.
Context {K V : Type} `{EqDecision K}.
Implicit Types (k : K) (v : V) (c : lru_dict.LRUDict K V) (d : list (K * V)).

(** In a cache with room for two, the newest entry outlives the next
    [set] of another key. *)
Lemma newest_survives_set k v k' v' (sz : Z) d :
  (2 ≤ sz)%Z → k' ≠ k → OrderedDict.get k d = None →
  OrderedDict.get k
    (lru_dict.dict
       (snd (lru_dict.setitem k' v' (lru_dict.mkLRUDict sz (d ++ [(k, v)]))))) =
  Some v.
Proof.
  intros Hsz Hne Hd. rewrite setitem_spec. simpl.
  rewrite remove_app. simpl. destruct (decide (k' = k)); [done|].
  assert (∀ l : list (K * V),
            OrderedDict.get k ((l ++ [(k, v)]) ++ [(k', v')]) =
            match OrderedDict.get k l with Some x => Some x | None => Some v end)
    as Hget.
  { intros l. rewrite !get_app. destruct (OrderedDict.get k l); [done|].
    simpl. by destruct (decide (k = k)). }
  assert (OrderedDict.get k (OrderedDict.remove k' d) = None) as Hrm
    by by rewrite get_remove_ne.
  destruct (_ >? _)%Z eqn:Hcond.
  - destruct (OrderedDict.remove k' d) as [|[k0 v0] l] eqn:E.
    + apply Z.gtb_lt in Hcond. unfold OrderedDict.len in Hcond.
      simpl in Hcond. lia.
    + simpl. rewrite Hget. simpl in Hrm.
      destruct (decide (k = k0)); [done|]. by rewrite Hrm.
  - by rewrite Hget, Hrm.
Qed.

(** X16. In a cache of capacity at least two, a key that was just read,
    or that was just set in a cache that respects its bound, is still
    there with its value after the next [setitem] of another key: the
    eviction never takes the entry that was used last. *)
Theorem X16_touched_key_survives_next_insert c k v k' v' :
  (2 ≤ lru_dict.size c)%Z →
  k' ≠ k →
  (OrderedDict.get k (lru_dict.dict c) = Some v →
   OrderedDict.get k
     (lru_dict.dict
        (snd (lru_dict.setitem k' v' (snd (lru_dict.getitem k c))))) =
   Some v) ∧
  ((lru_dict.length_of c ≤ lru_dict.size c)%Z →
   OrderedDict.get k
     (lru_dict.dict
        (snd (lru_dict.setitem k' v' (snd (lru_dict.setitem k v c))))) =
   Some v).
Proof.
  intros Hsz Hne. split.
  - intros Hget. rewrite getitem_spec, Hget. cbn [snd].
    apply newest_survives_set; [done | done | apply get_remove_eq].
  - intros Hle.
    destruct (setitem_recency k v c ltac:(lia) Hle)
      as (c' & evicted & rest & Hset & Hd & _ & _ & Hrest & _).
    rewrite Hset. cbn [snd].
    assert (lru_dict.size c' = lru_dict.size c) as Hsz'.
    { rewrite setitem_spec in Hset. by injection Hset as <-. }
    destruct c' as [sz' d']. simpl in *. subst.
    by apply newest_survives_set.
Qed.
End lru_survive.

(** * The thread-safe LRU dictionary *)

Section thread_safe_facts.
Context {K V : Type} `{EqDecision K}.
Import thread_safe.

Lemma acquire_release (me : nat) (l : RLock) :
  consistent l → owner l = None ∨ owner l = Some me →
  ∃ l1, acquire me l = Some l1 ∧ consistent l1 ∧ owner l1 = Some me ∧
        release me l1 = Some l.
Proof.
  destruct l as [[t|] n]; unfold consistent, acquire, release; simpl.
  - intros Hn [[=]|[= ->]]. destruct (decide (me = me)) as [_|]; [|done].
    eexists. split; [done|]. simpl. split_and!; [lia | done |].
    destruct (decide (Some me = Some me)) as [_|]; [|done].
    destruct (decide (n + 1 - 1 = 0)%Z) as [|_]; [lia|].
    f_equal. f_equal. lia.
  - intros -> _. eexists. split; [done|]. simpl. split_and!; [lia | done |].
    destruct (decide (Some me = Some me)) as [_|]; [|done].
    by destruct (decide (1 - 1 = 0)%Z).
Qed.

Lemma acquire_waits (me t : nat) (l : RLock) :
  owner l = Some t → t ≠ me → acquire me l = None.
Proof. unfold acquire. intros -> Hne. by rewrite decide_False. Qed.

(** A call that can take the lock runs the method of [LRUDict] and gives
    the lock back as it was. *)
Lemma with_lock_spec {A : Type} (me : nat)
    (body : lru_dict.LRUDict K V → result A * lru_dict.LRUDict K V)
    (self : ThreadSafeLRUDict K V) :
  consistent (lock self) →
  owner (lock self) = None ∨ owner (lock self) = Some me →
  with_lock me body self =
  Finishes (fst (body (base self)))
    (mkThreadSafeLRUDict (snd (body (base self))) (lock self)).
Proof.
  intros Hc Ho. unfold with_lock.
  destruct (acquire_release me (lock self) Hc Ho) as (l1 & -> & _ & _ & Hrel).
  destruct (body (base self)) as [r b]. by rewrite Hrel.
Qed.

Lemma with_lock_waits {A : Type} (me t : nat)
    (body : lru_dict.LRUDict K V → result A * lru_dict.LRUDict K V)
    (self : ThreadSafeLRUDict K V) :
  owner (lock self) = Some t → t ≠ me → with_lock me body self = Waits.
Proof.
  intros Ho Hne. unfold with_lock. by rewrite (acquire_waits me t).
Qed.

(** X8. While the reentrant lock of a [ThreadSafeLRUDict] is free, or
    owned by the calling thread, its four locked methods return what the
    methods of [LRUDict] return, leave the cache that those leave, and
    leave the lock as they found it, also when [KeyError] is raised. While
    another thread owns the lock, the four methods wait. [items], which is
    inherited, takes no lock and returns the entries in every case. *)
Theorem X8_thread_safe_cache_behaves_like_cache
    (me : nat) (k : K) (v : V) (self : ThreadSafeLRUDict K V) :
  consistent (lock self) →
  (owner (lock self) = None ∨ owner (lock self) = Some me →
   contains me k self =
     Finishes (fst (lru_dict.contains k (base self)))
       (mkThreadSafeLRUDict (snd (lru_dict.contains k (base self))) (lock self)) ∧
   getitem me k self =
     Finishes (fst (lru_dict.getitem k (base self)))
       (mkThreadSafeLRUDict (snd (lru_dict.getitem k (base self))) (lock self)) ∧
   setitem me k v self =
     Finishes (fst (lru_dict.setitem k v (base self)))
       (mkThreadSafeLRUDict (snd (lru_dict.setitem k v (base self))) (lock self)) ∧
   delitem me k self =
     Finishes (fst (lru_dict.delitem k (base self)))
       (mkThreadSafeLRUDict (snd (lru_dict.delitem k (base self))) (lock self))) ∧
  (∀ t, owner (lock self) = Some t → t ≠ me →
   contains me k self = Waits ∧ getitem me k self = Waits ∧
   setitem me k v self = Waits ∧ delitem me k self = Waits) ∧
  items self = Finishes (Ok (lru_dict.dict (base self))) self.
Proof.
  intros Hc. split_and!.
  - intros Ho. unfold contains, getitem, setitem, delitem.
    by rewrite !with_lock_spec.
  - intros t Ho Hne. unfold contains, getitem, setitem, delitem.
    by rewrite !(with_lock_waits me t).
  - by destruct self.
Qed.
End thread_safe_facts.

(** * Sessions: isolation, round trips and life cycle *)

Section sessions_more.
Context {SessionId StateId Token SData StData : Type}.
Context `{EqDecision SessionId} `{EqDecision StateId}.
Import memory_sessions.
Implicit Types (s : Sessions SessionId StateId Token SData StData).
Implicit Types (r : Session StateId Token SData StData).
Implicit Types (sid : SessionId) (stid : StateId).

(** Moving one session to the newest position does not touch the records
    of the others. *)
Lemma session_of_promote_ne s sid sid' r' :
  sid' ≠ sid →
  session_of sid'
    (with_sessions
       (lru_dict.mkLRUDict (lru_dict.size (_sessions s))
          (OrderedDict.remove sid (lru_dict.dict (_sessions s)) ++
           [(sid, r')])) s) =
  session_of sid' s.
Proof.
  intros Hne. unfold session_of. simpl.
  rewrite get_app, get_remove_ne by done.
  destruct (OrderedDict.get sid' _); [done|]. simpl.
  by destruct (decide (sid' = sid)).
Qed.

Lemma session_of_promote_eq s sid r' :
  session_of sid
    (with_sessions
       (lru_dict.mkLRUDict (lru_dict.size (_sessions s))
          (OrderedDict.remove sid (lru_dict.dict (_sessions s)) ++
           [(sid, r')])) s) =
  Some r'.
Proof.
  unfold session_of. simpl. rewrite get_app, get_remove_eq. simpl.
  by destruct (decide (sid = sid)).
Qed.

(** X9. A call about one session ([check_session_id], [get_lock],
    [_fetch], [_store] or [delete]), returned or raised, leaves the record
    of every other session as it was. *)
Theorem X9_calls_leave_other_sessions_alone s sid sid' stid
    (tok : Token) (same : bool) (sdata : option SData) (stdata : StData) :
  sid' ≠ sid →
  session_of sid' (snd (check_session_id sid s)) = session_of sid' s ∧
  session_of sid' (snd (get_lock sid s)) = session_of sid' s ∧
  session_of sid' (snd (_fetch sid stid s)) = session_of sid' s ∧
  session_of sid' (snd (_store sid stid tok same sdata stdata s)) =
    session_of sid' s ∧
  session_of sid' (snd (delete sid s)) = session_of sid' s.
Proof.
  intros Hne.
  rewrite check_session_id_spec, get_lock_spec, _fetch_spec, _store_spec,
    delete_spec.
  destruct (session_of sid s) as [r|] eqn:Hs; simpl; [|done].
  split_and!; [done | by apply session_of_promote_ne | |
               by apply session_of_promote_ne |].
  - destruct (OrderedDict.get stid _); simpl; by apply session_of_promote_ne.
  - unfold session_of. simpl. by apply get_remove_ne.
Qed.

(** A second lookup of the newest entry changes nothing. *)
Lemma promote_last {A B} `{EqDecision A} (k : A) (v : B) (d : list (A * B)) :
  OrderedDict.get k d = None →
  OrderedDict.remove k (d ++ [(k, v)]) = d.
Proof.
  intros Hd. rewrite remove_app, (remove_fresh _ _ Hd). simpl.
  destruct (decide (k = k)); [|done]. by rewrite app_nil_r.
Qed.

(** Fetching the newest state of the newest session returns it and changes
    nothing. *)
Lemma _fetch_newest s sid stid r others rest (state_data : StData) :
  lru_dict.dict (_sessions s) = others ++ [(sid, r)] →
  OrderedDict.get sid others = None →
  lru_dict.dict (states r) = rest ++ [(stid, state_data)] →
  OrderedDict.get stid rest = None →
  _fetch sid stid s =
    (Ok (last_state_id r, secure_token r, session_data r, state_data), s).
Proof.
  intros Hd Hothers Hst Hrest. rewrite _fetch_spec. unfold session_of.
  rewrite Hd, get_app, Hothers. simpl.
  destruct (decide (sid = sid)); [|done].
  rewrite Hst, get_app, Hrest. simpl.
  destruct (decide (stid = stid)); [|done].
  rewrite !promote_last by done. f_equal.
  destruct s as [w nb [sz d]], r as [n lk tk sd [szi di]].
  simpl in *. by subst.
Qed.

(** What a store followed by a fetch of the same state gives. *)
Lemma store_then_fetch sid stid (tok : Token) (same : bool)
    (sdata : option SData) (stdata : StData) s r :
  session_of sid s = Some r →
  (0 < lru_dict.size (states r))%Z →
  (lru_dict.length_of (states r) ≤ lru_dict.size (states r))%Z →
  _fetch sid stid (snd (_store sid stid tok same sdata stdata s)) =
    (Ok ((if same then last_state_id r else last_state_id r + 1)%Z,
         tok, sdata, stdata),
     snd (_store sid stid tok same sdata stdata s)).
Proof.
  intros Hs Hpos Hle. rewrite _store_spec, Hs.
  destruct (setitem_recency stid stdata (states r) Hpos Hle)
    as (c' & evicted & rest & Hset & Hd & _ & _ & Hrest & _).
  rewrite Hset. cbn [snd].
  by erewrite _fetch_newest; [| done | apply get_remove_eq | exact Hd | exact Hrest].
Qed.

(** X10. A stored state is fetched back. After [_store] on a session
    that is present, whose cache of states has a positive capacity and
    respects it, [_fetch] of the same session and state returns the state
    counter of the session (incremented by the store unless
    [use_same_state]), and the token, session data and state data that were
    stored; the fetch changes nothing. *)
Theorem X10_store_then_fetch sid stid (tok : Token) (same : bool)
    (sdata : option SData) (stdata : StData) s r :
  session_of sid s = Some r →
  (0 < lru_dict.size (states r))%Z →
  (lru_dict.length_of (states r) ≤ lru_dict.size (states r))%Z →
  let s1 := snd (_store sid stid tok same sdata stdata s) in
  _fetch sid stid s1 =
    (Ok ((if same then last_state_id r else last_state_id r + 1)%Z,
         tok, sdata, stdata),
     s1).
Proof. intros Hs Hpos Hle. by apply store_then_fetch. Qed.

Lemma with_sessions_eta s :
  with_sessions
    (lru_dict.mkLRUDict (lru_dict.size (_sessions s))
       (lru_dict.dict (_sessions s))) s = s.
Proof. by destruct s as [w nb [sz d]]. Qed.

Lemma get_lock_newest s sid r others :
  lru_dict.dict (_sessions s) = others ++ [(sid, r)] →
  OrderedDict.get sid others = None →
  get_lock sid s = (Ok (lock r), s).
Proof.
  intros Hd Hothers. rewrite get_lock_spec. unfold session_of.
  rewrite Hd, get_app, Hothers. simpl.
  destruct (decide (sid = sid)); [|done].
  rewrite promote_last by done. rewrite <- Hd. by rewrite with_sessions_eta.
Qed.

Lemma _fetch_newest_unknown_state s sid stid r others :
  lru_dict.dict (_sessions s) = others ++ [(sid, r)] →
  OrderedDict.get sid others = None →
  OrderedDict.get stid (lru_dict.dict (states r)) = None →
  _fetch sid stid s = (Raise ExpirationError, s).
Proof.
  intros Hd Hothers Hst. rewrite _fetch_spec. unfold session_of.
  rewrite Hd, get_app, Hothers. simpl.
  destruct (decide (sid = sid)); [|done]. rewrite Hst.
  rewrite promote_last by done. rewrite <- Hd. by rewrite with_sessions_eta.
Qed.

(** X11. In a manager with room for at least one session, a session
    that was just created is known, its lock is the one that the worker
    created for it, and it has no state yet: every [_fetch] raises
    [ExpirationError] and changes nothing. After a first [_store] of a new
    state, with [nb_states] positive, [_fetch] returns the counter 1 and
    what was stored. *)
Theorem X11_created_session_is_usable sid (tok : Token) s :
  (0 < lru_dict.size (_sessions s))%Z →
  (lru_dict.length_of (_sessions s) ≤ lru_dict.size (_sessions s))%Z →
  let s1 := snd (_create sid tok s) in
  check_session_id sid s1 = (Ok true, s1) ∧
  get_lock sid s1 = (Ok (LockHandle (locks_created (local s))), s1) ∧
  (∀ stid, _fetch sid stid s1 = (Raise ExpirationError, s1)) ∧
  (∀ stid tok' sdata stdata,
     (0 < nb_states s)%Z →
     let s2 := snd (_store sid stid tok' false sdata stdata s1) in
     _fetch sid stid s2 = (Ok (1%Z, tok', sdata, stdata), s2)).
Proof.
  intros Hpos Hle. cbv zeta. rewrite _create_spec. cbn [snd].
  set (record := mkSession 0 (LockHandle (locks_created (local s))) tok None
                   (lru_dict.init (nb_states s))).
  destruct (setitem_recency sid record (_sessions s) Hpos Hle)
    as (c' & evicted & rest & Hset & Hd & _ & Hget & Hrest & _).
  rewrite Hset. cbn [snd].
  set (s1 := mkSessions _ _ c').
  assert (lru_dict.dict (_sessions s1) = rest ++ [(sid, record)]) as Hd1
    by exact Hd.
  split_and!.
  - rewrite check_session_id_spec. unfold OrderedDict.contains.
    simpl. by rewrite Hget.
  - by rewrite (get_lock_newest s1 sid record rest Hd1 Hrest).
  - intros stid.
    by rewrite (_fetch_newest_unknown_state s1 sid stid record rest Hd1 Hrest).
  - intros stid tok' sdata stdata Hnb.
    assert (session_of sid s1 = Some record) as Hs1 by exact Hget.
    rewrite (store_then_fetch sid stid tok' false sdata stdata s1 record Hs1);
      [done | done |].
    unfold lru_dict.length_of, OrderedDict.len. simpl. lia.
Qed.

(** X12. [delete] of a session that is present returns, removes that
    entry from the outer cache, and afterwards the session is unknown:
    [check_session_id] is false, [get_lock] and [_fetch] raise
    [ExpirationError], [_store] and a second [delete] raise [KeyError], and
    none of these calls changes the manager. *)
Theorem X12_deleted_session_is_gone sid stid (tok : Token) (same : bool)
    (sdata : option SData) (stdata : StData) s r :
  session_of sid s = Some r →
  let s1 := snd (delete sid s) in
  fst (delete sid s) = Ok () ∧
  lru_dict.dict (_sessions s1) =
    OrderedDict.remove sid (lru_dict.dict (_sessions s)) ∧
  check_session_id sid s1 = (Ok false, s1) ∧
  get_lock sid s1 = (Raise ExpirationError, s1) ∧
  _fetch sid stid s1 = (Raise ExpirationError, s1) ∧
  _store sid stid tok same sdata stdata s1 = (Raise KeyError, s1) ∧
  delete sid s1 = (Raise KeyError, s1).
Proof.
  intros Hs. cbv zeta. rewrite (delete_spec sid s), Hs. cbn [fst snd].
  set (s1 := with_sessions _ s).
  assert (session_of sid s1 = None) as Hs1.
  { unfold session_of. simpl. apply get_remove_eq. }
  split_and!; [done | done | | | | |].
  - rewrite check_session_id_spec. unfold OrderedDict.contains.
    unfold session_of in Hs1. by rewrite Hs1.
  - by rewrite get_lock_spec, Hs1.
  - by rewrite _fetch_spec, Hs1.
  - by rewrite _store_spec, Hs1.
  - by rewrite delete_spec, Hs1.
Qed.

(** X13. No call other than [_create] under the same identifier changes
    the lock of a session that is still in the manager after the call, and
    the state counter of that session never decreases and grows by at most
    one per call. *)
Theorem X13_lock_and_counter_are_stable s (c : call) sid r r' :
  NoDup (OrderedDict.keys (lru_dict.dict (_sessions s))) →
  (∀ tok, c ≠ CallCreate sid tok) →
  session_of sid s = Some r →
  session_of sid (step s c) = Some r' →
  lock r' = lock r ∧
  (last_state_id r ≤ last_state_id r' ≤ last_state_id r + 1)%Z.
Proof.
  intros Hnd Hc Hs.
  assert (∀ r0 : Session StateId Token SData StData,
            Some r0 = Some r' → r0 = r →
            lock r' = lock r ∧
            (last_state_id r ≤ last_state_id r' ≤ last_state_id r + 1)%Z)
    as Hsame.
  { intros r0 [= <-] ->. split; [done | lia]. }
  destruct c as [sid0|sid0|sid0 tok|sid0|sid0 stid|sid0 stid tok same sdata stdata];
    cbn [step].
  - rewrite check_session_id_spec. simpl. rewrite Hs. intros H1. by eapply Hsame.
  - rewrite get_lock_spec.
    destruct (session_of sid0 s) as [r0|] eqn:Hs0; simpl.
    + destruct (decide (sid = sid0)) as [->|Hne].
      * rewrite session_of_promote_eq. intros H1. eapply Hsame; [done|congruence].
      * rewrite session_of_promote_ne, Hs by done. intros H1. by eapply Hsame.
    + rewrite Hs. intros H1. by eapply Hsame.
  - assert (sid ≠ sid0) as Hne by (intros ->; by eapply Hc).
    rewrite _create_spec. cbn [snd]. unfold session_of in *. simpl.
    rewrite setitem_spec. simpl.
    set (X := OrderedDict.remove sid0 (lru_dict.dict (_sessions s)) ++ _).
    assert (OrderedDict.get sid X = Some r) as HX.
    { unfold X. rewrite get_app, get_remove_ne, Hs by done. done. }
    assert (NoDup (OrderedDict.keys X)) as HndX by by apply keys_promote_NoDup.
    destruct (_ >? _)%Z; intros H1.
    + apply get_tail in H1; [|done]. eapply Hsame; [done|congruence].
    + eapply Hsame; [done|congruence].
  - rewrite delete_spec.
    destruct (session_of sid0 s) as [r0|] eqn:Hs0; simpl.
    + unfold session_of in *. simpl.
      destruct (decide (sid = sid0)) as [->|Hne].
      * by rewrite get_remove_eq.
      * rewrite get_remove_ne, Hs by done. intros H1. by eapply Hsame.
    + rewrite Hs. intros H1. by eapply Hsame.
  - rewrite _fetch_spec.
    destruct (session_of sid0 s) as [r0|] eqn:Hs0; simpl.
    + destruct (decide (sid = sid0)) as [->|Hne].
      * assert (r0 = r) as -> by congruence.
        destruct (OrderedDict.get stid _); simpl;
          rewrite session_of_promote_eq; intros [= <-]; simpl;
          (split; [done | lia]).
      * destruct (OrderedDict.get stid _); simpl;
          rewrite session_of_promote_ne, Hs by done; intros H1; by eapply Hsame.
    + rewrite Hs. intros H1. by eapply Hsame.
  - rewrite _store_spec.
    destruct (session_of sid0 s) as [r0|] eqn:Hs0; simpl.
    + destruct (decide (sid = sid0)) as [->|Hne].
      * assert (r0 = r) as -> by congruence.
        rewrite session_of_promote_eq. intros [= <-]. simpl.
        split; [done | destruct same; lia].
      * rewrite session_of_promote_ne, Hs by done. intros H1. by eapply Hsame.
    + rewrite Hs. intros H1. by eapply Hsame.
Qed.
End sessions_more.

(** * Sessions: eviction of the least recently used session *)

Section sessions_evict.
Context {SessionId StateId Token SData StData : Type}.
Context `{EqDecision SessionId} `{EqDecision StateId}.
Import memory_sessions.
Implicit Types (s : Sessions SessionId StateId Token SData StData).
Implicit Types (r : Session StateId Token SData StData).
Implicit Types (sid : SessionId) (stid : StateId).

(** X14. [_create] under a new identifier in a full manager evicts the
    least recently used session and makes the new one the most recent:
    afterwards the evicted identifier is unknown to [check_session_id],
    [get_lock] and [_fetch] raise [ExpirationError] for it, and every other
    session keeps its record. *)
Theorem X14_create_evicts_least_recently_used_session sid (tok : Token) s :
  (0 < lru_dict.size (_sessions s))%Z →
  lru_dict.length_of (_sessions s) = lru_dict.size (_sessions s) →
  NoDup (OrderedDict.keys (lru_dict.dict (_sessions s))) →
  session_of sid s = None →
  let s1 := snd (_create sid tok s) in
  ∃ sid0 r0 rest,
    lru_dict.dict (_sessions s) = (sid0, r0) :: rest ∧
    lru_dict.dict (_sessions s1) =
      rest ++
      [(sid, mkSession 0 (LockHandle (locks_created (local s))) tok None
               (lru_dict.init (nb_states s)))] ∧
    check_session_id sid0 s1 = (Ok false, s1) ∧
    get_lock sid0 s1 = (Raise ExpirationError, s1) ∧
    (∀ stid, _fetch sid0 stid s1 = (Raise ExpirationError, s1)) ∧
    (∀ sid', sid' ≠ sid0 → sid' ≠ sid →
       session_of sid' s1 = session_of sid' s).
Proof.
  intros Hpos Hfull Hnd Hs. cbv zeta. rewrite _create_spec. cbn [snd].
  set (record := mkSession 0 _ tok None _).
  unfold session_of in Hs.
  rewrite setitem_spec, len_snoc, (remove_fresh _ _ Hs).
  unfold lru_dict.length_of, OrderedDict.len in *.
  destruct (lru_dict.dict (_sessions s)) as [|[sid0 r0] rest] eqn:Hd;
    simpl in *; [lia|].
  destruct (Z.gtb_spec (Z.of_nat (S (length rest)) + 1)
              (lru_dict.size (_sessions s))); [|lia].
  revert Hs. destruct (decide (sid = sid0)) as [->|Hne]; [by intros [=]|].
  intros Hs.
  apply NoDup_cons in Hnd as [Hsid0 Hnd].
  exists sid0, r0, rest. cbn [snd].
  set (s1 := mkSessions _ _ _).
  assert (session_of sid0 s1 = None) as Hgone.
  { unfold session_of. simpl. rewrite get_app.
    assert (OrderedDict.get sid0 rest = None) as -> by by apply get_None_keys.
    simpl. destruct (decide (sid0 = sid)); [congruence | done]. }
  split_and!; [done | done | | | |].
  - rewrite check_session_id_spec. unfold OrderedDict.contains.
    unfold session_of in Hgone. by rewrite Hgone.
  - by rewrite get_lock_spec, Hgone.
  - intros stid. by rewrite _fetch_spec, Hgone.
  - intros sid' Hne0 Hne'. unfold session_of. simpl. rewrite Hd. simpl.
    rewrite get_app. destruct (decide (sid' = sid0)); [done|].
    destruct (OrderedDict.get sid' rest); [done|]. simpl.
    by destruct (decide (sid' = sid)).
Qed.
End sessions_evict.

(** * Sessions: identifiers stay distinct *)

Section sessions_distinct.
Context {SessionId StateId Token SData StData : Type}.
Context `{EqDecision SessionId} `{EqDecision StateId}.
Import memory_sessions.
Implicit Types (s : Sessions SessionId StateId Token SData StData).
Implicit Types (r : Session StateId Token SData StData).

Lemma promote_distinct_ids s sid r' :
  distinct_ids s →
  NoDup (OrderedDict.keys (lru_dict.dict (states r'))) →
  distinct_ids
    (with_sessions
       (lru_dict.mkLRUDict (lru_dict.size (_sessions s))
          (OrderedDict.remove sid (lru_dict.dict (_sessions s)) ++
           [(sid, r')]))
       s).
Proof.
  intros [Hout Hin] Hr'. split; simpl.
  - by apply keys_promote_NoDup.
  - apply Forall_app. split; [by apply remove_Forall | by constructor].
Qed.

Lemma step_distinct_ids s (c : call) :
  distinct_ids s → distinct_ids (step s c).
Proof.
  intros Hd. pose proof Hd as [Hout Hin].
  destruct c as [sid|sid|sid tok|sid|sid stid|sid stid tok same sdata stdata];
    cbn [step].
  - by rewrite check_session_id_spec.
  - rewrite get_lock_spec.
    destruct (session_of sid s) as [r|] eqn:Hs; simpl; [|done].
    apply promote_distinct_ids; [done|].
    apply (get_Forall _ _ _ _ Hin Hs).
  - rewrite _create_spec. simpl. split; simpl.
    + apply (step_NoDup (_sessions s) (lru_dict.OpSet sid _) Hout).
    + apply setitem_Forall; [done|]. simpl. constructor.
  - rewrite delete_spec.
    destruct (session_of sid s) as [r|] eqn:Hs; simpl; [|done].
    split; simpl; [by apply remove_NoDup | by apply remove_Forall].
  - rewrite _fetch_spec.
    destruct (session_of sid s) as [r|] eqn:Hs; simpl; [|done].
    pose proof (get_Forall _ _ _ _ Hin Hs) as Hr. simpl in Hr.
    destruct (OrderedDict.get stid (lru_dict.dict (states r))); simpl;
      apply promote_distinct_ids; try done.
    simpl. by apply keys_promote_NoDup.
  - rewrite _store_spec.
    destruct (session_of sid s) as [r|] eqn:Hs; simpl; [|done].
    pose proof (get_Forall _ _ _ _ Hin Hs) as Hr. simpl in Hr.
    apply promote_distinct_ids; [done|]. simpl.
    apply (step_NoDup (states r) (lru_dict.OpSet stid stdata) Hr).
Qed.

Lemma run_distinct_ids s (cs : list call) :
  distinct_ids s → distinct_ids (run s cs).
Proof.
  unfold run. revert s.
  induction cs as [|c cs IH]; intros s Hd; simpl; [done|].
  by apply IH, step_distinct_ids.
Qed.

(** X15. Identifiers stay distinct: whatever calls are run on a new
    manager, returned or raised, no session identifier occurs twice in the
    outer cache and no state identifier occurs twice in the cache of a
    session. *)
Theorem X15_ids_stay_distinct (w : Worker) (nb_sessions nb_states : Z)
    (cs : list call) :
  let s : Sessions SessionId StateId Token SData StData :=
    run (init w nb_sessions nb_states) cs in
  NoDup (OrderedDict.keys (lru_dict.dict (_sessions s))) ∧
  ∀ sid r, session_of sid s = Some r →
    NoDup (OrderedDict.keys (lru_dict.dict (states r))).
Proof.
  cbv zeta.
  assert (distinct_ids
            (init w nb_sessions nb_states
               : Sessions SessionId StateId Token SData StData)) as H0.
  { split; simpl; constructor. }
  destruct (run_distinct_ids _ cs H0) as [Hout Hin]. split; [done|].
  intros sid r Hr. apply (get_Forall _ _ _ _ Hin Hr).
Qed.
End sessions_distinct.

(** * The theorems at concrete caches and stores *)

Section witnesses.
Import lru_dict memory_sessions samples.
Local Open Scope string_scope.
Local Open Scope Z_scope.

Lemma C1_witness :
  0 < lru_dict.size full_cache ∧
  length_of full_cache = lru_dict.size full_cache ∧
  OrderedDict.contains "c" (dict full_cache) = false ∧
  setitem "c" 3 full_cache = (Ok (), mkLRUDict 2 [("b", 2); ("c", 3)]).
Proof.
  assert (0 < lru_dict.size full_cache) as Hpos by reflexivity.
  assert (length_of full_cache = lru_dict.size full_cache) as Hfull
    by reflexivity.
  assert (OrderedDict.contains "c" (dict full_cache) = false) as Hnew
    by reflexivity.
  split_and!; [exact Hpos | exact Hfull | exact Hnew |].
  destruct (C1_set_evicts_least_recently_used full_cache "c" 3
              Hpos Hfull Hnew)
    as (k0 & v0 & rest & Hd & Hset & _).
  vm_compute in Hd. injection Hd as <- <- <-. exact Hset.
Defined.

Lemma C2_witness :
  0 < 2 ∧
  Forall (λ c', length_of c' ≤ 2)
    (lru_dict.trace (lru_dict.init 2)
       [OpSet "a" 1; OpSet "b" 2; OpGet "a"; OpSet "c" 3; OpDelete "b";
        OpContains "a"; OpGet "z"; OpSet "d" 4; OpSet "e" 5]).
Proof.
  split; [reflexivity|]. apply C2_capacity_invariant. reflexivity.
Defined.

Lemma C3_witness :
  0 < lru_dict.size full_cache ∧
  length_of full_cache ≤ lru_dict.size full_cache ∧
  (∃ c', getitem "a" full_cache = (Ok 1, c') ∧
         dict c' = [("b", 2); ("a", 1)]) ∧
  (∃ c', setitem "a" 9 full_cache = (Ok (), c') ∧
         dict c' = [("b", 2); ("a", 9)]).
Proof.
  assert (0 < lru_dict.size full_cache) as Hpos by reflexivity.
  assert (length_of full_cache ≤ lru_dict.size full_cache) as Hle
    by (intros Hgt; discriminate Hgt).
  assert (OrderedDict.get "a" (dict full_cache) = Some 1) as Hin
    by reflexivity.
  split_and!; [exact Hpos | exact Hle | |];
    destruct (C3_get_and_set_move_to_most_recent full_cache "a" 9 Hpos Hle)
      as [Hget Hset].
  - destruct (Hget 1 Hin) as (c' & Hg & Hd & _).
    exists c'. split; [exact Hg | exact Hd].
  - destruct Hset as (c' & evicted & rest & Hs & _).
    exists c'. split; [exact Hs|].
    vm_compute in Hs. injection Hs as <-. reflexivity.
Defined.
Lemma C4_witness :
  session_of 1 store = Some session_1 ∧
  OrderedDict.get 0 (dict (states session_1)) = Some "state-0" ∧
  OrderedDict.get 7 (dict (states session_1)) = None ∧
  session_of 9 store = None ∧
  _fetch 9 0 store = (Raise ExpirationError, store) ∧
  fst (_fetch 1 7 store) = Raise ExpirationError ∧
  (∃ s' r',
     _fetch 1 0 store =
       (Ok (3, "token-1", Some "data-1", "state-0"), s') ∧
     dict (_sessions s') = [(2, session_2); (1, r')] ∧
     dict (states r') = [(1, "state-1"); (0, "state-0")]).
Proof.
  assert (session_of 1 store = Some session_1) as Hs by reflexivity.
  assert (OrderedDict.get 0 (dict (states session_1)) = Some "state-0")
    as Hst by reflexivity.
  assert (OrderedDict.get 7 (dict (states session_1)) = None) as Hno
    by reflexivity.
  assert (session_of 9 store = None) as Hs9 by reflexivity.
  split_and!; [exact Hs | exact Hst | exact Hno | exact Hs9 | | |].
  - exact (proj1 (C4_fetch_expired_or_promotes 9 0 store) Hs9).
  - exact (proj1 (proj2 (C4_fetch_expired_or_promotes 1 7 store))
             session_1 Hs Hno).
  - destruct (proj2 (proj2 (C4_fetch_expired_or_promotes 1 0 store))
                session_1 "state-0" Hs Hst)
      as (s' & r' & Hf & Hd & _ & Hd' & _).
    exists s', r'. split_and!; [exact Hf | exact Hd | exact Hd'].
Defined.

Lemma C5_witness :
  session_of 1 store = Some session_1 ∧
  (∃ s' r',
     _store 1 2 "token-1'" false (Some "data-1'") "state-2" store =
       (Ok (), s') ∧
     session_of 1 s' = Some r' ∧
     last_state_id r' = 4 ∧
     secure_token r' = "token-1'" ∧
     session_data r' = Some "data-1'" ∧
     lock r' = LockHandle 0 ∧
     dict (states r') = [(1, "state-1"); (2, "state-2")]) ∧
  (∃ s' r',
     _store 1 1 "token-1'" true None "state-1'" store = (Ok (), s') ∧
     session_of 1 s' = Some r' ∧
     last_state_id r' = 3 ∧
     dict (states r') = [(0, "state-0"); (1, "state-1'")]).
Proof.
  assert (session_of 1 store = Some session_1) as Hs by reflexivity.
  split_and!; [exact Hs | |].
  - destruct (C5_store_updates_session 1 2 "token-1'" false
                (Some "data-1'") "state-2" store session_1 Hs)
      as (s' & r' & Hst & Hs' & Hid & Htok & Hdata & Hlock & Hset & _).
    exists s', r'.
    split_and!; [exact Hst | exact Hs' | exact Hid | exact Htok
                 | exact Hdata | exact Hlock |].
    rewrite setitem_spec in Hset. injection Hset as <-. reflexivity.
  - destruct (C5_store_updates_session 1 1 "token-1'" true
                None "state-1'" store session_1 Hs)
      as (s' & r' & Hst & Hs' & Hid & _ & _ & _ & Hset & _).
    exists s', r'. split_and!; [exact Hst | exact Hs' | exact Hid |].
    rewrite setitem_spec in Hset. injection Hset as <-. reflexivity.
Defined.

Lemma C6_witness :
  (∃ s',
     _create 3 "token-3" store = (Ok (3, 0, "token-3", LockHandle 2), s') ∧
     locks_created (local s') = 3%nat ∧
     session_of 3 s' =
       Some (mkSession 0 (LockHandle 2) "token-3" None (lru_dict.init 2)) ∧
     session_of 1 s' = None) ∧
  (∃ s',
     _create 1 "token-1'" store =
       (Ok (1, 0, "token-1'", LockHandle 2), s') ∧
     session_of 1 s' =
       Some (mkSession 0 (LockHandle 2) "token-1'" None (lru_dict.init 2))).
Proof.
  assert (0 < lru_dict.size (_sessions store)) as Hpos by reflexivity.
  assert (length_of (_sessions store) ≤ lru_dict.size (_sessions store))
    as Hle by (intros Hgt; discriminate Hgt).
  split.
  - destruct (C6_create_inserts_fresh_session 3 "token-3" store)
      as (s' & Hc & _ & Hn & _ & _ & Hset & _ & _ & Hin).
    exists s'. split_and!; [exact Hc | exact Hn | exact (proj1 (Hin Hpos Hle)) |].
    rewrite setitem_spec in Hset. unfold session_of.
    injection Hset as <-. reflexivity.
  - destruct (C6_create_inserts_fresh_session 1 "token-1'" store)
      as (s' & Hc & _ & _ & _ & _ & _ & _ & _ & Hin).
    exists s'. split; [exact Hc | exact (proj1 (Hin Hpos Hle))].
Defined.

Lemma C7_witness :
  fst (get_lock 9 store) = Raise ExpirationError ∧
  get_lock 1 store =
    (Ok (LockHandle 0),
     mkSessions (mkWorker 2) 2
       (mkLRUDict 2 [(2, session_2); (1, session_1)])) ∧
  (∃ s', delete 1 store = (Ok (), s') ∧
         dict (_sessions s') = [(2, session_2)]) ∧
  delete 9 store = (Raise KeyError, store).
Proof.
  assert (session_of 1 store = Some session_1) as Hs by reflexivity.
  assert (session_of 9 store = None) as Hs9 by reflexivity.
  destruct (C7_get_lock_and_delete 1 store) as (_ & _ & Hlock & Hdel & _).
  destruct (C7_get_lock_and_delete 9 store) as (Hiff & _ & _ & _ & Hdel9).
  split_and!.
  - exact (proj2 Hiff Hs9).
  - exact (proj1 (Hlock session_1 Hs)).
  - destruct (Hdel session_1 Hs) as (s' & Hd & _ & Hd').
    exists s'. split; [exact Hd | exact Hd'].
  - exact (Hdel9 Hs9).
Defined.

Lemma C8_witness :
  lru_dict.contains "a" full_cache = (Ok true, full_cache) ∧
  lru_dict.contains "z" full_cache = (Ok false, full_cache) ∧
  check_session_id 1 store = (Ok true, store) ∧
  check_session_id 9 store = (Ok false, store).
Proof.
  destruct (C8_contains_changes_nothing full_cache "a" store 1)
    as [(b1 & H1 & _) (b2 & H2 & _)].
  destruct (C8_contains_changes_nothing full_cache "z" store 9)
    as [(b3 & H3 & _) (b4 & H4 & _)].
  assert (b1 = true) as -> by (vm_compute in H1; congruence).
  assert (b2 = true) as -> by (vm_compute in H2; congruence).
  assert (b3 = false) as -> by (vm_compute in H3; congruence).
  assert (b4 = false) as -> by (vm_compute in H4; congruence).
  split_and!; [exact H1 | exact H3 | exact H2 | exact H4].
Defined.

Lemma C9_witness :
  session_of 1 store = Some session_1 ∧
  ∃ s' r',
    _store 1 2 "token-1'" false (Some "data-1'") "state-2" store =
      (Ok (), s') ∧
    dict (_sessions s') = [(2, session_2); (1, r')] ∧
    OrderedDict.keys (dict (_sessions s')) = [2; 1] ∧
    lru_dict.size (_sessions s') = 2.
Proof.
  assert (session_of 1 store = Some session_1) as Hs by reflexivity.
  split; [exact Hs|].
  destruct (C9_store_promotes_session 1 2 "token-1'" false
              (Some "data-1'") "state-2" store session_1 Hs)
    as (s' & r' & Hst & _ & _ & _ & Hd & Hsz & _).
  exists s', r'. split_and!; [exact Hst | exact Hd | | exact Hsz].
  unfold OrderedDict.keys. rewrite Hd. reflexivity.
Defined.

Lemma C10_witness :
  setitem "a" 1 (lru_dict.run (lru_dict.init 0) [OpSet "b" 2; OpGet "b"]) =
    (Ok (), mkLRUDict 0 []) ∧
  ∃ c', setitem "a" 1
          (lru_dict.run (lru_dict.init 1) [OpSet "b" 2; OpGet "b"; OpSet "c" 3]) =
          (Ok (), c') ∧
        OrderedDict.get "a" (dict c') = Some 1.
Proof.
  destruct (@C10_capacity_zero_evicts_new_entry string Z _) as [H0 H1].
  split.
  - exact (proj1 (proj2 (H0 [OpSet "b" 2; OpGet "b"] "a" 1))).
  - destruct (H1 1 [OpSet "b" 2; OpGet "b"; OpSet "c" 3] "a" 1)
      as (c' & Hset & Hget & _); [discriminate|].
    exists c'. split; [exact Hset | exact Hget].
Defined.
Lemma X1_witness :
  0 < 2 ∧
  (0 ≤ length_of
         (_sessions
            (memory_sessions.run empty_store
               [CallCreate 1 "token-1"; CallCreate 2 "token-2";
                CallStore 1 0 "token-1" false None "state-0";
                CallCreate 3 "token-3"; CallFetch 1 0;
                CallStore 2 0 "token-2" true (Some "data-2") "state-0";
                CallStore 2 1 "token-2" false None "state-1";
                CallStore 2 2 "token-2" false None "state-2";
                CallGetLock 3; CallDelete 9; CallCheckSessionId 2]))
   ≤ 2).
Proof.
  assert (0 < 2) as Hpos by reflexivity.
  split; [exact Hpos|].
  exact (proj1 (X1_sessions_bounds_invariant (mkWorker 0) 2 2 _ Hpos Hpos)).
Defined.

Lemma X2_witness :
  session_of 9 store = None ∧
  _store 9 0 "token-9" false None "state-0" store = (Raise KeyError, store).
Proof.
  assert (session_of 9 store = None) as Hs by reflexivity.
  split; [exact Hs|].
  exact (X2_store_unknown_session_raises_KeyError store 9 0 "token-9" false
           None "state-0" Hs).
Defined.

Lemma X6_witness :
  0 < lru_dict.size full_cache ∧
  length_of full_cache ≤ lru_dict.size full_cache ∧
  getitem "a" (mkLRUDict 2 [("b", 2); ("a", 5)]) =
    (Ok 5, mkLRUDict 2 [("b", 2); ("a", 5)]) ∧
  setitem "a" 6 (mkLRUDict 2 [("b", 2); ("a", 5)]) = setitem "a" 6 full_cache.
Proof.
  assert (0 < lru_dict.size full_cache) as Hpos by reflexivity.
  assert (length_of full_cache ≤ lru_dict.size full_cache) as Hle
    by (intros Hgt; discriminate Hgt).
  destruct (X6_set_then_get_and_overwrite full_cache "a" 5 6 Hpos Hle)
    as (Hget & _ & Hset).
  split_and!; [exact Hpos | exact Hle | exact Hget | exact Hset].
Defined.

Lemma X7_witness :
  length_of full_cache ≤ lru_dict.size full_cache ∧
  OrderedDict.get "a" (dict full_cache) = Some 1 ∧
  ∃ c1,
    delitem "a" full_cache = (Ok (), c1) ∧
    dict c1 = [("b", 2)] ∧
    getitem "a" c1 = (Raise KeyError, c1) ∧
    setitem "c" 3 c1 = (Ok (), mkLRUDict 2 [("b", 2); ("c", 3)]).
Proof.
  assert (length_of full_cache ≤ lru_dict.size full_cache) as Hle
    by (intros Hgt; discriminate Hgt).
  assert (OrderedDict.get "a" (dict full_cache) = Some 1) as Hin
    by reflexivity.
  split_and!; [exact Hle | exact Hin |].
  destruct (X7_delete_frees_a_slot full_cache "a" 1 "c" 3 Hle Hin)
    as (c1 & Hdel & Hd & _ & _ & _ & Hget & _ & Hset).
  exists c1. split_and!; [exact Hdel | exact Hd | exact Hget |].
  rewrite Hset, Hd. reflexivity.
Defined.

Lemma X8_witness :
  thread_safe.consistent thread_safe.new_lock ∧
  thread_safe.setitem 0 "a" 1 (thread_safe.init 2) =
    thread_safe.Finishes (Ok ())
      (thread_safe.mkThreadSafeLRUDict (mkLRUDict 2 [("a", 1)])
         thread_safe.new_lock) ∧
  thread_safe.getitem 0 "a"
    (thread_safe.init 2 : thread_safe.ThreadSafeLRUDict string Z) =
    thread_safe.Finishes (Raise KeyError) (thread_safe.init 2) ∧
  thread_safe.consistent (thread_safe.mkRLock (Some 1%nat) 1) ∧
  thread_safe.getitem 0 "a"
    (thread_safe.mkThreadSafeLRUDict full_cache
       (thread_safe.mkRLock (Some 1%nat) 1)) =
    thread_safe.Waits.
Proof.
  assert (thread_safe.consistent thread_safe.new_lock) as Hfree
    by reflexivity.
  assert (thread_safe.consistent (thread_safe.mkRLock (Some 1%nat) 1))
    as Hheld by reflexivity.
  assert (1%nat ≠ 0%nat) as Hne by (intros Heq; discriminate Heq).
  destruct (X8_thread_safe_cache_behaves_like_cache 0 "a" 1
              (thread_safe.init 2) Hfree) as (Hruns & _).
  destruct (Hruns (or_introl eq_refl)) as (_ & Hget & Hset & _).
  destruct (X8_thread_safe_cache_behaves_like_cache 0 "a" 1
              (thread_safe.mkThreadSafeLRUDict full_cache
                 (thread_safe.mkRLock (Some 1%nat) 1)) Hheld)
    as (_ & Hwaits & _).
  destruct (Hwaits 1%nat eq_refl Hne) as (_ & Hwait & _).
  split_and!; [exact Hfree | exact Hset | exact Hget | exact Hheld
               | exact Hwait].
Defined.

Lemma X9_witness :
  2 ≠ 1 ∧
  session_of 2 (snd (_store 1 5 "token-1b" false None "state-5" store)) =
    Some session_2 ∧
  session_of 2 (snd (delete 1 store)) = Some session_2.
Proof.
  assert (2 ≠ 1) as Hne by (intros Heq; discriminate Heq).
  destruct (X9_calls_leave_other_sessions_alone store 1 2 5 "token-1b" false
              None "state-5" Hne) as (_ & _ & _ & Hstore & Hdel).
  split_and!; [exact Hne | exact Hstore | exact Hdel].
Defined.

Lemma X10_witness :
  session_of 1 store = Some session_1 ∧
  0 < lru_dict.size (states session_1) ∧
  length_of (states session_1) ≤ lru_dict.size (states session_1) ∧
  let s1 :=
    snd (_store 1 5 "token-1b" false (Some "data-1b") "state-5" store) in
  _fetch 1 5 s1 = (Ok (4, "token-1b", Some "data-1b", "state-5"), s1).
Proof.
  assert (session_of 1 store = Some session_1) as Hs by reflexivity.
  assert (0 < lru_dict.size (states session_1)) as Hpos by reflexivity.
  assert (length_of (states session_1) ≤ lru_dict.size (states session_1))
    as Hle by (intros Hgt; discriminate Hgt).
  split_and!; [exact Hs | exact Hpos | exact Hle |].
  exact (X10_store_then_fetch 1 5 "token-1b" false (Some "data-1b") "state-5"
           store session_1 Hs Hpos Hle).
Defined.

Lemma X11_witness :
  0 < lru_dict.size (_sessions store) ∧
  length_of (_sessions store) ≤ lru_dict.size (_sessions store) ∧
  0 < nb_states store ∧
  let s1 := snd (_create 3 "token-3" store) in
  let s2 := snd (_store 3 0 "token-3b" false (Some "data-3") "state-0" s1) in
  check_session_id 3 s1 = (Ok true, s1) ∧
  get_lock 3 s1 = (Ok (LockHandle 2), s1) ∧
  _fetch 3 0 s1 = (Raise ExpirationError, s1) ∧
  _fetch 3 0 s2 = (Ok (1, "token-3b", Some "data-3", "state-0"), s2).
Proof.
  assert (0 < lru_dict.size (_sessions store)) as Hpos by reflexivity.
  assert (length_of (_sessions store) ≤ lru_dict.size (_sessions store))
    as Hle by (intros Hgt; discriminate Hgt).
  assert (0 < nb_states store) as Hnb by reflexivity.
  split_and!; [exact Hpos | exact Hle | exact Hnb |].
  destruct (X11_created_session_is_usable 3 "token-3" store Hpos Hle)
    as (Hcheck & Hlock & Hfetch & Hstore).
  cbv zeta.
  split_and!; [exact Hcheck | exact Hlock | exact (Hfetch 0) |].
  exact (Hstore 0 "token-3b" (Some "data-3") "state-0" Hnb).
Defined.

Lemma X12_witness :
  session_of 1 store = Some session_1 ∧
  let s1 := snd (delete 1 store) in
  dict (_sessions s1) = [(2, session_2)] ∧
  check_session_id 1 s1 = (Ok false, s1) ∧
  _fetch 1 0 s1 = (Raise ExpirationError, s1) ∧
  delete 1 s1 = (Raise KeyError, s1).
Proof.
  assert (session_of 1 store = Some session_1) as Hs by reflexivity.
  split; [exact Hs|].
  destruct (X12_deleted_session_is_gone 1 0 "token-1" false None "state-0"
              store session_1 Hs)
    as (_ & Hd & Hcheck & _ & Hfetch & _ & Hdel).
  cbv zeta. split_and!; [exact Hd | exact Hcheck | exact Hfetch | exact Hdel].
Defined.

Lemma X13_witness :
  NoDup (OrderedDict.keys (dict (_sessions store))) ∧
  (∀ tok : string,
     CallStore 1 5 "token-1b" false (None : option string) "state-5"
     ≠ CallCreate 1 tok) ∧
  session_of 1 store = Some session_1 ∧
  session_of 1
    (memory_sessions.step store
       (CallStore 1 5 "token-1b" false None "state-5")) =
    Some (mkSession 4 (LockHandle 0) "token-1b" None
            (mkLRUDict 2 [(1, "state-1"); (5, "state-5")])) ∧
  LockHandle 0 = memory_sessions.lock session_1 ∧
  last_state_id session_1 ≤ 4 ≤ last_state_id session_1 + 1.
Proof.
  assert (NoDup (OrderedDict.keys (dict (_sessions store)))) as Hnd.
  { apply (bool_decide_unpack _). vm_compute. exact I. }
  assert (∀ tok : string,
            CallStore 1 5 "token-1b" false (None : option string) "state-5"
            ≠ CallCreate 1 tok) as Hc
    by (intros tok Heq; discriminate Heq).
  assert (session_of 1 store = Some session_1) as Hs by reflexivity.
  assert (session_of 1
            (memory_sessions.step store
               (CallStore 1 5 "token-1b" false None "state-5")) =
          Some (mkSession 4 (LockHandle 0) "token-1b" None
                  (mkLRUDict 2 [(1, "state-1"); (5, "state-5")]))) as Hs'
    by reflexivity.
  split; [exact Hnd|]. split; [exact Hc|]. split; [exact Hs|].
  split; [exact Hs'|].
  exact (X13_lock_and_counter_are_stable store _ 1 session_1 _
           Hnd Hc Hs Hs').
Defined.

Lemma X14_witness :
  0 < lru_dict.size (_sessions store) ∧
  length_of (_sessions store) = lru_dict.size (_sessions store) ∧
  NoDup (OrderedDict.keys (dict (_sessions store))) ∧
  session_of 3 store = None ∧
  let s1 := snd (_create 3 "token-3" store) in
  check_session_id 1 s1 = (Ok false, s1) ∧
  (∀ stid, _fetch 1 stid s1 = (Raise ExpirationError, s1)) ∧
  session_of 2 s1 = Some session_2.
Proof.
  assert (0 < lru_dict.size (_sessions store)) as Hpos by reflexivity.
  assert (length_of (_sessions store) = lru_dict.size (_sessions store))
    as Hfull by reflexivity.
  assert (NoDup (OrderedDict.keys (dict (_sessions store)))) as Hnd.
  { apply (bool_decide_unpack _). vm_compute. exact I. }
  assert (session_of 3 store = None) as Hs by reflexivity.
  split_and!; [exact Hpos | exact Hfull | exact Hnd | exact Hs |].
  destruct (X14_create_evicts_least_recently_used_session 3 "token-3" store
              Hpos Hfull Hnd Hs)
    as (sid0 & r0 & rest & Hd & _ & Hcheck & _ & Hfetch & Hothers).
  assert (sid0 = 1) as -> by (by injection Hd as <- _ _).
  cbv zeta. split_and!; [exact Hcheck | exact Hfetch |].
  apply (Hothers 2); intros Heq; discriminate Heq.
Defined.

Lemma X16_witness :
  2 ≤ lru_dict.size full_cache ∧
  "c" ≠ "a" ∧
  OrderedDict.get "a" (dict full_cache) = Some 1 ∧
  OrderedDict.get "a"
    (dict (snd (setitem "c" 3 (snd (getitem "a" full_cache))))) = Some 1 ∧
  OrderedDict.get "a"
    (dict (snd (setitem "c" 3 (snd (setitem "a" 7 full_cache))))) = Some 7.
Proof.
  assert (2 ≤ lru_dict.size full_cache) as Hsz
    by (intros Hgt; discriminate Hgt).
  assert ("c" ≠ "a") as Hne by (intros Heq; discriminate Heq).
  assert (OrderedDict.get "a" (dict full_cache) = Some 1) as Hin
    by reflexivity.
  assert (length_of full_cache ≤ lru_dict.size full_cache) as Hle
    by (intros Hgt; discriminate Hgt).
  split_and!; [exact Hsz | exact Hne | exact Hin | |].
  - exact (proj1 (X16_touched_key_survives_next_insert full_cache "a" 1 "c" 3
                    Hsz Hne) Hin).
  - exact (proj2 (X16_touched_key_survives_next_insert full_cache "a" 7 "c" 3
                    Hsz Hne) Hle).
Defined.
End witnesses.
